(** * mcp_agent.config: configuration resolution

    A shallow embedding of [src/mcp_agent/config.py]: the settings schema,
    the upward file locator [Settings._find_config], the recursive
    [deep_merge] of two settings trees, and the memoising entry point
    [get_settings].

    Conventions.
    - A Python [dict] with string keys is a [gmap string _]; nothing in the
      module observes the insertion order of a dict.
    - The YAML parser, the textual-path resolution of the operating system
      and the cross-kind scalar conversions of the schema-binding library are
      collaborators of the module: they are Variables of the section below.
    - [Settings] derives from [BaseSettings]: a call of the class builds a
      state from its keywords and from the sources of the settings library
      (environment variables, the [.env] file, ...), the keywords first, and
      validates that state against the declared fields. What the sources
      hold is a Variable of the section as well; the fields and their
      validation are [Settings_model]. *)

From Stdlib Require QArith_base.
From Stdlib Require Import ZArith.
From stdpp Require Import gmap strings list fin_maps.

Set Warnings "-register-all".

(** ** Part I. Definitions *)

(** *** Python values *)

(** What [yaml.safe_load] returns, and what the schema binds: scalars, lists,
    string-keyed mappings, and (after binding) model instances. A float is
    carried as the rational it denotes. *)
Inductive pyval :=
  | VNone
  | VBool (b : bool)
  | VInt (z : Z)
  | VFloat (q : QArith_base.Q)
  | VStr (s : string)
  | VList (l : list pyval)
  | VDict (d : gmap string pyval)
  | VObj (cls : string) (attrs : gmap string pyval).

(** [isinstance(v, dict)] *)
Definition isinstance_dict (v : pyval) : bool :=
  match v with VDict _ => true | _ => false end.

(** [bool(v)], as used by [yaml.safe_load(f) or {}]. *)
Definition truthy (v : pyval) : bool :=
  match v with
  | VNone => false
  | VBool b => b
  | VInt z => negb (Z.eqb z 0)
  | VFloat q => negb (Z.eqb (QArith_base.Qnum q) 0)
  | VStr s => negb (String.eqb s "")
  | VList l => match l with [] => false | _ => true end
  | VDict d => negb (bool_decide (d = ∅))
  | VObj _ _ => true
  end.

(** [x or {}] *)
Definition or_empty_dict (v : pyval) : pyval :=
  if truthy v then v else VDict ∅.

(** Attribute access on a model instance. *)
Definition getattr (o : pyval) (name : string) : option pyval :=
  match o with VObj _ attrs => attrs !! name | _ => None end.

(** The value found by following a chain of keys through nested mappings. *)
Fixpoint lookup_path (p : list string) (v : pyval) : option pyval :=
  match p with
  | [] => Some v
  | k :: p' =>
      match v with
      | VDict d => match d !! k with Some v' => lookup_path p' v' | None => None end
      | _ => None
      end
  end.

(** Nesting depth of mappings (0 for anything that is not a mapping). *)
Fixpoint depth (v : pyval) : nat :=
  match v with
  | VDict d => S (map_fold (fun _ x acc => Nat.max (depth x) acc) 0 d)
  | _ => 0
  end.

(** *** deep_merge on trees

    [[
    def deep_merge(base: dict, update: dict) -> dict:
        merged = base.copy()
        for key, value in update.items():
            if key in merged and isinstance(merged[key], dict) and isinstance(value, dict):
                merged[key] = deep_merge(merged[key], value)
            else:
                merged[key] = value
        return merged
    ]]

    The recursion descends into [update]; [deep_merge_items update base] is
    the result of the loop over the items of the mapping [update], started
    from the copy of [base]. *)
Fixpoint deep_merge_items (update : pyval) (base : gmap string pyval)
    {struct update} : gmap string pyval :=
  match update with
  | VDict items =>
      map_fold (fun key value merged =>
        match merged !! key, value with
        | Some (VDict b), VDict _ =>
            <[key := VDict (deep_merge_items value b)]> merged
        | _, _ => <[key := value]> merged
        end) base items
  | _ => base
  end.

Definition deep_merge (base update : gmap string pyval) : gmap string pyval :=
  deep_merge_items (VDict update) base.

(** What one iteration stores at its key: the recursive merge when the key
    is in [merged] and both sides are mappings, the update's value otherwise. *)
Definition merged_value (current : option pyval) (value : pyval) : pyval :=
  match current, value with
  | Some (VDict b), VDict u => VDict (deep_merge b u)
  | _, _ => value
  end.

(** One iteration of the loop body, with the recursive call named. *)
Definition merge_step (key : string) (value : pyval)
    (merged : gmap string pyval) : gmap string pyval :=
  <[key := merged_value (merged !! key) value]> merged.

(** The shallow overlay of the top-level keys of [update] onto [base]
    ([base.copy()] followed by [update(update)]). *)
Definition shallow_overlay (base update : gmap string pyval) : gmap string pyval :=
  map_fold (fun key value merged => <[key := value]> merged) base update.

(** *** deep_merge on the object store

    Python dicts are mutable objects reached through references, and
    [base.copy()] is a shallow copy: the new dict shares every value object
    with [base]. The store below makes that sharing explicit. A dict object
    maps its keys to references; every other object is a leaf that
    [deep_merge] never looks inside. *)

Abbreviation loc := nat (only parsing).

Inductive hobj :=
  | HDict (entries : gmap string loc)
  | HLeaf (v : pyval).

Abbreviation heap := (list hobj) (only parsing).

(** Allocation of a new object: it gets the next free reference. *)
Definition alloc (h : heap) (o : hobj) : heap * loc := (h ++ [o], length h).

(** [isinstance(h[l], dict)] *)
Definition is_hdict (h : heap) (l : loc) : bool :=
  match h !! l with Some (HDict _) => true | _ => false end.

(** [base.copy()]: a new dict with the same entries, or a new list with the
    same items; any other object has no [copy] method. *)
Definition copy (h : heap) (base : loc) : option (heap * loc) :=
  match h !! base with
  | Some (HDict entries) => Some (alloc h (HDict entries))
  | Some (HLeaf (VList l)) => Some (alloc h (HLeaf (VList l)))
  | _ => None
  end.

(** [merged[key] = value]: mutates the dict object at [merged] in place. Item
    assignment with a string key on anything but a dict raises. *)
Definition setitem (h : heap) (merged : loc) (key : string) (value : loc) : option heap :=
  match h !! merged with
  | Some (HDict entries) => Some (<[merged := HDict (<[key := value]> entries)]> h)
  | _ => None
  end.

(** How a call ends: it returns a reference in a final store, it raises (the
    store as it was then is kept), or the model ran out of fuel. *)
Inductive result :=
  | Done (h : heap) (r : loc)
  | Fault (h : heap)
  | OutOfFuel.

(** [merged[key]] when [key in merged] *)
Definition getitem (h : heap) (merged : loc) (key : string) : option loc :=
  match h !! merged with
  | Some (HDict entries) => entries !! key
  | _ => None
  end.

(** The loop body of [deep_merge] on the store, given the recursive call. *)
Definition merge_step_h (rec : heap -> loc -> loc -> result) (merged : loc)
    (key : string) (value : loc) (acc : result) : result :=
  match acc with
  | Done h _ =>
      match getitem h merged key with
      | Some b =>
          if is_hdict h b && is_hdict h value then
            match rec h b value with
            | Done h' r =>
                match setitem h' merged key r with
                | Some h'' => Done h'' merged
                | None => Fault h'
                end
            | other => other
            end
          else
            match setitem h merged key value with
            | Some h' => Done h' merged
            | None => Fault h
            end
      | None =>
          match setitem h merged key value with
          | Some h' => Done h' merged
          | None => Fault h
          end
      end
  | other => other
  end.

(** [deep_merge(base, update)] on references. The fuel bounds the depth of
    the recursion, which Python bounds by its recursion limit. *)
Fixpoint deep_merge_h (fuel : nat) (h : heap) (base update : loc) : result :=
  match fuel with
  | O => OutOfFuel
  | S fuel' =>
      match copy h base with
      | None => Fault h
      | Some (h1, merged) =>
          match h1 !! update with
          | Some (HDict items) =>
              map_fold (merge_step_h (deep_merge_h fuel') merged) (Done h1 merged) items
          | _ => Fault h1
          end
      end
  end.

(** The store [h] holds the tree [v] at reference [l]. *)
Inductive repr (h : heap) : loc -> pyval -> Prop :=
  | repr_leaf l v :
      h !! l = Some (HLeaf v) -> isinstance_dict v = false -> repr h l v
  | repr_dict l entries d :
      h !! l = Some (HDict entries) ->
      (forall k, entries !! k = None <-> d !! k = None) ->
      (forall k l' v, entries !! k = Some l' -> d !! k = Some v -> repr h l' v) ->
      repr h l (VDict d).

(** Every object of [h] that lies outside the references [lo .. hi-1] is
    found unchanged in [hx]. With [lo = hi = 0]: every object of [h]. *)
Definition unchanged_outside (lo hi : nat) (h hx : heap) : Prop :=
  forall l o, h !! l = Some o -> (l < lo \/ hi <= l) -> hx !! l = Some o.

Definition heap_incl (h hx : heap) : Prop := unchanged_outside 0 0 h hx.

(** *** The file system and the locator *)

(** An absolute path: the names below the root, outermost first. The root is
    the empty list, and it is its own parent. *)
Abbreviation path := (list string) (only parsing).

(** [p.parent] *)
Definition parent (p : path) : path := removelast p.

(** [p / filename], for a plain file name *)
Definition joinpath (p : path) (filename : string) : path := p ++ [filename].

Inductive node :=
  | File (text : string)
  | Dir.

(** What the process sees of its surroundings: the working directory and, for
    each path, whether something exists there. *)
Record world := World {
  cwd : path;
  fs : path -> option node;
}.

(** [p.exists()] *)
Definition path_exists (w : world) (p : path) : bool :=
  match fs w p with Some _ => true | None => false end.

(** The inner loop of [_find_config]:
    [[
    for filename in filenames:
        config_path = current_dir / filename
        if config_path.exists():
            return config_path
    ]] *)
Fixpoint first_existing (w : world) (current_dir : path) (filenames : list string)
    : option path :=
  match filenames with
  | [] => None
  | filename :: rest =>
      let config_path := joinpath current_dir filename in
      if path_exists w config_path then Some config_path
      else first_existing w current_dir rest
  end.

(** The outer loop of [_find_config]:
    [[
    while current_dir != current_dir.parent:
        (inner loop)
        current_dir = current_dir.parent
    return None
    ]]
    One unit of fuel is spent per test of the loop condition. *)
Fixpoint find_loop (fuel : nat) (w : world) (filenames : list string)
    (current_dir : path) : option path :=
  match fuel with
  | O => None
  | S fuel' =>
      if bool_decide (current_dir <> parent current_dir) then
        match first_existing w current_dir filenames with
        | Some config_path => Some config_path
        | None => find_loop fuel' w filenames (parent current_dir)
        end
      else None
  end.

(** [Settings._find_config(filenames)], started at [Path.cwd()]. The loop
    condition is tested once per directory from the working directory up to
    the root, so the fuel given here is never exhausted
    (see [find_loop_fuel]). *)
Definition _find_config (w : world) (filenames : list string) : option path :=
  find_loop (S (length (cwd w))) w filenames (cwd w).

Definition config_filenames : list string :=
  ["mcp-agent.config.yaml"; "mcp_agent.config.yaml"].

Definition secrets_filenames : list string :=
  ["mcp-agent.secrets.yaml"; "mcp_agent.secrets.yaml"].

(** [Settings.find_config()] *)
Definition find_config (w : world) : option path := _find_config w config_filenames.

(** [Settings.find_secrets()] *)
Definition find_secrets (w : world) : option path := _find_config w secrets_filenames.

(** *** The schema and its binding

    The classes of the module are plain declarations: fields with a type
    annotation and, mostly, a default. They are kept as data ([ty]), and one
    function, [validate], binds a value onto a declaration the way the
    schema library does: a field given in the keywords is validated against
    its annotation and then by its field validator, a field left out takes
    its default (which is not validated), a required field left out is a
    validation error, and the keywords that name no field are kept or dropped
    according to the [extra] setting of the class. *)

(** How a construction ends: with a value, with a validation error, or with
    another exception escaping. *)
Inductive outcome (A : Type) :=
  | Ok (a : A)
  | ValidationError
  | Raised.
Arguments Ok {A} a.
Arguments ValidationError {A}.
Arguments Raised {A}.

Definition outcome_map {A B} (f : A -> B) (o : outcome A) : outcome B :=
  match o with
  | Ok a => Ok (f a)
  | ValidationError => ValidationError
  | Raised => Raised
  end.

Definition outcome_bind {A B} (o : outcome A) (f : A -> outcome B) : outcome B :=
  match o with
  | Ok a => f a
  | ValidationError => ValidationError
  | Raised => Raised
  end.

(** Two validations of one construction. The schema library collects the
    validation errors of all fields before it reports them, while any other
    exception escapes at once: an escaping exception on either side wins. *)
Definition combine {A B C} (f : A -> B -> C) (oa : outcome A) (ob : outcome B)
    : outcome C :=
  match oa, ob with
  | Raised, _ | _, Raised => Raised
  | ValidationError, _ | _, ValidationError => ValidationError
  | Ok a, Ok b => Ok (f a b)
  end.

(** Scalar annotations: [str], [int], [bool], [float]. *)
Inductive prim := PStr | PInt | PBool | PFloat.

(** [model_config = ConfigDict(extra="allow")], or the library's default. *)
Inductive extra_policy := ExtraAllow | ExtraIgnore.

(** A field declaration: name, annotation, default ([None] here: required),
    and the [field_validator] registered for it, if any. *)
Record field_of (T : Type) := Field {
  fname : string;
  ftype : T;
  fdefault : option pyval;
  fafter : option (pyval -> outcome pyval);
}.
Arguments Field {T} fname ftype fdefault fafter.
Arguments fname {T} f.
Arguments ftype {T} f.
Arguments fdefault {T} f.
Arguments fafter {T} f.

(** Annotations. [TOptional t] is [t | None]; [TDict t] is [Dict[str, t]];
    [TModel] is a class of the module. *)
Inductive ty :=
  | TPrim (p : prim)
  | TLiteral (choices : list string)
  | TOptional (t : ty)
  | TList (t : ty)
  | TDict (t : ty)
  | TModel (cls : string) (extra : extra_policy) (fields : list (field_of ty)).

(** [startswith] on strings *)
Definition startswith (v prefix : string) : bool := String.prefix prefix v.

(** [MCPRootSettings.validate_uri]:
    [[
    if not v.startswith("file://"):
        raise ValueError("Root URI must start with file://")
    return v
    ]]
    The schema library turns the [ValueError] into a validation error. A value
    without a [startswith] method makes the attribute access raise. *)
Definition validate_uri (v : pyval) : outcome pyval :=
  match v with
  | VStr s => if negb (startswith s "file://") then ValidationError else Ok v
  | _ => Raised
  end.

(** The keywords that name no declared field. *)
Definition extras_of (extra : extra_policy) (names : list string)
    (kwargs : gmap string pyval) : gmap string pyval :=
  match extra with
  | ExtraAllow => filter (fun kv => kv.1 ∉ names) kwargs
  | ExtraIgnore => ∅
  end.

(** The instance a class call without arguments builds: every field at its
    declared default. *)
Definition default_attrs (fields : list (field_of ty)) : gmap string pyval :=
  foldr (fun f attrs =>
    match fdefault f with
    | Some d => <[fname f := d]> attrs
    | None => attrs
    end) ∅ fields.

Definition default_instance (t : ty) : pyval :=
  match t with
  | TModel cls _ fields => VObj cls (default_attrs fields)
  | _ => VNone
  end.

(** Shorthands for the three shapes of declaration the module uses. *)
Definition required (name : string) (t : ty) : field_of ty :=
  Field name t None None.
Definition defaulted (name : string) (t : ty) (d : pyval) : field_of ty :=
  Field name t (Some d) None.
Definition optional (name : string) (t : ty) : field_of ty :=
  Field name (TOptional t) (Some VNone) None.

Definition str := TPrim PStr.
Definition int := TPrim PInt.
Definition bool_ := TPrim PBool.
Definition float := TPrim PFloat.

Definition MCPServerAuthSettings : ty :=
  TModel "MCPServerAuthSettings" ExtraAllow [optional "api_key" str].

(** [uri] is required; [validate_uri] is registered for [uri] and for
    [server_uri_alias]. *)
Definition MCPRootSettings : ty :=
  TModel "MCPRootSettings" ExtraAllow [
    Field "uri" str None (Some validate_uri);
    optional "name" str;
    Field "server_uri_alias" (TOptional str) (Some VNone) (Some validate_uri)
  ].

Definition MCPServerSettings : ty :=
  TModel "MCPServerSettings" ExtraIgnore [
    optional "name" str;
    optional "description" str;
    defaulted "transport" (TLiteral ["stdio"; "sse"]) (VStr "stdio");
    optional "command" str;
    optional "args" (TList str);
    optional "read_timeout_seconds" int;
    optional "url" str;
    optional "auth" MCPServerAuthSettings;
    optional "roots" (TList MCPRootSettings);
    optional "env" (TDict str)
  ].

Definition MCPSettings : ty :=
  TModel "MCPSettings" ExtraAllow [
    defaulted "servers" (TDict MCPServerSettings) (VDict ∅)
  ].

Definition AnthropicSettings : ty :=
  TModel "AnthropicSettings" ExtraAllow [optional "api_key" str].

Definition BedrockSettings : ty :=
  TModel "BedrockSettings" ExtraAllow [
    optional "aws_access_key_id" str;
    optional "aws_secret_access_key" str;
    optional "aws_session_token" str;
    optional "aws_region" str
  ].

Definition CohereSettings : ty :=
  TModel "CohereSettings" ExtraAllow [optional "api_key" str].

Definition OpenAISettings : ty :=
  TModel "OpenAISettings" ExtraAllow [
    optional "api_key" str;
    defaulted "reasoning_effort" (TLiteral ["low"; "medium"; "high"]) (VStr "medium");
    optional "base_url" str
  ].

Definition AzureSettings : ty :=
  TModel "AzureSettings" ExtraAllow [
    required "api_key" str;
    required "endpoint" str
  ].

Definition TemporalSettings : ty :=
  TModel "TemporalSettings" ExtraIgnore [
    required "host" str;
    defaulted "namespace" str (VStr "default");
    required "task_queue" str;
    optional "api_key" str
  ].

Definition UsageTelemetrySettings : ty :=
  TModel "UsageTelemetrySettings" ExtraIgnore [
    defaulted "enabled" bool_ (VBool true);
    defaulted "enable_detailed_telemetry" bool_ (VBool false)
  ].

Definition OpenTelemetrySettings : ty :=
  TModel "OpenTelemetrySettings" ExtraIgnore [
    defaulted "enabled" bool_ (VBool true);
    defaulted "service_name" str (VStr "mcp-agent");
    optional "service_instance_id" str;
    optional "service_version" str;
    optional "otlp_endpoint" str;
    defaulted "console_debug" bool_ (VBool false);
    defaulted "sample_rate" float (VFloat (QArith_base.Qmake 1 1))
  ].

Definition LogPathSettings : ty :=
  TModel "LogPathSettings" ExtraIgnore [
    defaulted "path_pattern" str (VStr "logs/mcp-agent-{unique_id}.jsonl");
    defaulted "unique_id" (TLiteral ["timestamp"; "session_id"]) (VStr "timestamp");
    defaulted "timestamp_format" str (VStr "%Y%m%d_%H%M%S")
  ].

Definition transport_kinds : list string := ["none"; "console"; "file"; "http"].

Definition LoggerSettings : ty :=
  TModel "LoggerSettings" ExtraIgnore [
    defaulted "type" (TLiteral transport_kinds) (VStr "console");
    defaulted "transports" (TList (TLiteral transport_kinds)) (VList []);
    defaulted "level" (TLiteral ["debug"; "info"; "warning"; "error"]) (VStr "info");
    defaulted "progress_display" bool_ (VBool false);
    defaulted "path" str (VStr "mcp-agent.jsonl");
    optional "path_settings" LogPathSettings;
    defaulted "batch_size" int (VInt 100);
    defaulted "flush_interval" float (VFloat (QArith_base.Qmake 2 1));
    defaulted "max_queue_size" int (VInt 2048);
    optional "http_endpoint" str;
    optional "http_headers" (TDict str);
    defaulted "http_timeout" float (VFloat (QArith_base.Qmake 5 1))
  ].

(** The fields of [Settings]; four of them default to an instance built
    when the class is defined. *)
Definition Settings_fields : list (field_of ty) := [
  defaulted "mcp" (TOptional MCPSettings) (default_instance MCPSettings);
  defaulted "execution_engine" (TLiteral ["asyncio"; "temporal"]) (VStr "asyncio");
  optional "temporal" TemporalSettings;
  optional "anthropic" AnthropicSettings;
  optional "bedrock" BedrockSettings;
  optional "cohere" CohereSettings;
  optional "openai" OpenAISettings;
  optional "azure" AzureSettings;
  defaulted "otel" (TOptional OpenTelemetrySettings) (default_instance OpenTelemetrySettings);
  defaulted "logger" (TOptional LoggerSettings) (default_instance LoggerSettings);
  defaulted "usage_telemetry" (TOptional UsageTelemetrySettings)
    (default_instance UsageTelemetrySettings)
].

(** The declared fields of [Settings] and [extra="allow"]: what a state is
    validated against once [BaseSettings] has built it. The call of the class
    is [Settings] below. *)
Definition Settings_model : ty := TModel "Settings" ExtraAllow Settings_fields.

(** The other entries of [model_config = SettingsConfigDict(...)], which the
    settings library reads its sources by. *)
Record settings_config := SettingsConfig {
  env_nested_delimiter : string;
  env_file : string;
  env_file_encoding : string;
  nested_model_default_partial_update : bool;
}.

Definition Settings_model_config : settings_config :=
  SettingsConfig "__" ".env" "utf-8" true.

(** The classes of the module that derive from [BaseModel]: all but
    [Settings]. A call of one of them binds its keywords and nothing else. *)
Definition BaseModel_classes : list ty := [
  MCPServerAuthSettings; MCPRootSettings; MCPServerSettings; MCPSettings;
  AnthropicSettings; BedrockSettings; CohereSettings; OpenAISettings;
  AzureSettings; TemporalSettings; UsageTelemetrySettings;
  OpenTelemetrySettings; LogPathSettings; LoggerSettings
].

Section Resolver.

(** The collaborators of the module. *)

(** The conversions the schema library applies when a scalar is not of the
    annotated kind (a digit string for an [int], say): [None] when it has
    none, which is a validation error. *)
Variable lax : prim -> pyval -> option pyval.

(** [yaml.safe_load] on the text of a file: [None] when it raises. *)
Variable yaml_safe_load : string -> option pyval.

(** [Path(s)] for a caller-supplied string, as the operating system resolves
    it. *)
Variable Path : string -> path.

(** The names [BaseSettings.__init__] takes for itself, written without
    their leading underscore ([env_file] for the keyword [_env_file], ...):
    such a keyword configures the sources and is no value of the object. *)
Variable init_params : list string.

(** The states of the sources that come after the keywords of the call, in
    their order of priority (environment variables, the [.env] file, the
    secrets directory, ...), as the settings library reads them for a
    [model_config], in the process environment and the surroundings [w], for a
    call with the given keywords; reading them can raise. *)
Variable settings_sources :
  settings_config -> world -> gmap string pyval -> outcome (list (gmap string pyval)).

Definition validate_prim (p : prim) (v : pyval) : outcome pyval :=
  match p, v with
  | PStr, VStr _ | PInt, VInt _ | PBool, VBool _ | PFloat, VFloat _ => Ok v
  | _, _ => match lax p v with Some v' => Ok v' | None => ValidationError end
  end.

(** Validation of the items of a list, in order. *)
Definition validate_all (f : pyval -> outcome pyval) (l : list pyval)
    : outcome (list pyval) :=
  foldr (fun x acc => combine cons (f x) acc) (Ok []) l.

(** Validation of the values of a mapping. *)
Definition validate_values (f : pyval -> outcome pyval) (d : gmap string pyval)
    : outcome (gmap string pyval) :=
  map_fold (fun k x acc => combine (fun y m => <[k := y]> m) (f x) acc) (Ok ∅) d.

(** One field of a construction, given the validation of its annotation. *)
Definition bind_field (check : pyval -> outcome pyval) (f : field_of ty)
    (kwargs : gmap string pyval) : outcome pyval :=
  match kwargs !! fname f with
  | Some x =>
      match fafter f with
      | Some after => outcome_bind (check x) after
      | None => check x
      end
  | None =>
      match fdefault f with
      | Some d => Ok d
      | None => ValidationError
      end
  end.

(** Binding a value onto an annotation. *)
Fixpoint validate (t : ty) (v : pyval) {struct t} : outcome pyval :=
  match t with
  | TPrim p => validate_prim p v
  | TLiteral choices =>
      match v with
      | VStr s => if bool_decide (s ∈ choices) then Ok v else ValidationError
      | _ => ValidationError
      end
  | TOptional t' =>
      match v with
      | VNone => Ok VNone
      | _ => validate t' v
      end
  | TList t' =>
      match v with
      | VList l => outcome_map VList (validate_all (validate t') l)
      | _ => ValidationError
      end
  | TDict t' =>
      match v with
      | VDict d => outcome_map VDict (validate_values (validate t') d)
      | _ => ValidationError
      end
  | TModel cls extra fields =>
      match v with
      | VDict kwargs =>
          outcome_map (VObj cls)
            ((fix bind (fs : list (field_of ty)) : outcome (gmap string pyval) :=
                match fs with
                | [] => Ok (extras_of extra (fname <$> fields) kwargs)
                | f :: rest =>
                    combine (fun x attrs => <[fname f := x]> attrs)
                      (bind_field (validate (ftype f)) f kwargs) (bind rest)
                end) fields)
      | VObj cls' _ => if String.eqb cls cls' then Ok v else ValidationError
      | _ => ValidationError
      end
  end.

(** A [BaseModel] class of the module called with keyword arguments, and the
    validation step of a [BaseSettings] class on the state built for it. *)
Definition construct (t : ty) (kwargs : gmap string pyval) : outcome pyval :=
  validate t (VDict kwargs).

(** The keywords of a call of [Settings] that are values: those
    [BaseSettings.__init__] does not take for itself. *)
Definition init_kwargs (kwargs : gmap string pyval) : gmap string pyval :=
  filter (fun kv => kv.1 ∉ (String.append "_" <$> init_params)) kwargs.

(** The state [BaseSettings.__init__] validates, as the settings library
    builds it:
    [[
    state = {}
    for source in sources:
        state = deep_update(source(), state)
    ]]
    The keywords are the first source, so its state starts the loop; every
    later source is merged in underneath what is there already, and the
    library's [deep_update] is [deep_merge] under another name. *)
Definition settings_build_values (w : world) (kwargs : gmap string pyval)
    : outcome (gmap string pyval) :=
  outcome_map
    (foldl (fun state source => deep_merge source state) (init_kwargs kwargs))
    (settings_sources Settings_model_config w kwargs).

(** The class call [Settings(k1=v1, ...)], for the keywords [kwargs]. *)
Definition Settings (w : world) (kwargs : gmap string pyval) : outcome pyval :=
  outcome_bind (settings_build_values w kwargs) (construct Settings_model).

(** The sources after the keywords bind nothing in a call: they can be read,
    and the state built is the one the keywords give. It is so when every
    source state is empty: no matching environment variable, no entry of a
    [.env] file, no file of a secrets directory. *)
Definition environment_binds_nothing (w : world) (kwargs : gmap string pyval) : Prop :=
  settings_build_values w kwargs = Ok (init_kwargs kwargs).

(** *** The process state and get_settings *)

(** A [Settings] object: its identity and its attributes. *)
Record instance := Instance_ {
  obj_id : nat;
  obj_val : pyval;
}.

(** The module-level slot [_settings], and the next free object identity. *)
Record pstate := PState {
  _settings : option instance;
  next_id : nat;
}.

(** What a call does besides computing: the calls the body of
    [get_settings] makes. What a callee does in turn (the existence tests of
    the locator, the sources the constructor reads) is part of its call. *)
Inductive event :=
  | EvFindConfig
  | EvFindSecrets
  | EvExists (p : path)
  | EvOpen (p : path)
  | EvYamlLoad (text : string)
  | EvDeepMerge
  | EvSettingsInit.

(** A computation reads and writes the process state, records its events, and
    ends with a value or an exception. *)
Definition M (A : Type) : Type := pstate -> outcome A * pstate * list event.

#[global] Instance M_ret : MRet M := fun A a st => (Ok a, st, []).

#[global] Instance M_bind : MBind M := fun A B k m st =>
  match m st with
  | (Ok a, st1, t1) => let '(r, st2, t2) := k a st1 in (r, st2, t1 ++ t2)
  | (ValidationError, st1, t1) => (ValidationError, st1, t1)
  | (Raised, st1, t1) => (Raised, st1, t1)
  end.

Definition emit (e : event) : M unit := fun st => (Ok tt, st, [e]).

Definition raise {A} : M A := fun st => (Raised, st, []).

Definition lift {A} (o : outcome A) : M A := fun st => (o, st, []).

Definition read_global : M (option instance) := fun st => (Ok (_settings st), st, []).

Definition write_global (s : instance) : M unit :=
  fun st => (Ok tt, PState (Some s) (next_id st), []).

Definition new_object (v : pyval) : M instance :=
  fun st => (Ok (Instance_ (next_id st) v), PState (_settings st) (S (next_id st)), []).

(** [p.exists()] *)
Definition exists_ (w : world) (p : path) : M bool :=
  _ ← emit (EvExists p); mret (path_exists w p).

(** [open(p, "r")] and reading it: raises unless [p] is a file. *)
Definition open_read (w : world) (p : path) : M string :=
  _ ← emit (EvOpen p);
  match fs w p with
  | Some (File text) => mret text
  | _ => raise
  end.

(** [yaml.safe_load(f) or {}] *)
Definition load_yaml (text : string) : M pyval :=
  _ ← emit (EvYamlLoad text);
  match yaml_safe_load text with
  | Some v => mret (or_empty_dict v)
  | None => raise
  end.

(** The call [deep_merge(merged_settings, yaml_secrets)]. On two mappings
    it is [deep_merge]; a list merged with an empty mapping is copied; every
    other pair of arguments makes the body raise. *)
Definition call_deep_merge (base update : pyval) : M pyval :=
  _ ← emit EvDeepMerge;
  match base, update with
  | VDict b, VDict u => mret (VDict (deep_merge b u))
  | VList l, VDict u => if bool_decide (u = ∅) then mret (VList l) else raise
  | _, _ => raise
  end.

(** The call of [Settings] with a tree unpacked into keywords; unpacking
    anything but a mapping raises. *)
Definition Settings_init (w : world) (merged_settings : pyval) : M instance :=
  _ ← emit EvSettingsInit;
  match merged_settings with
  | VDict kwargs => v ← lift (Settings w kwargs); new_object v
  | _ => raise
  end.

(** [config_file = Path(config_path) if config_path else Settings.find_config()] *)
Definition config_file_of (w : world) (config_path : option string) : M (option path) :=
  match config_path with
  | Some s =>
      if negb (String.eqb s "") then mret (Some (Path s))
      else _ ← emit EvFindConfig; mret (find_config w)
  | None => _ ← emit EvFindConfig; mret (find_config w)
  end.

(** Two situations of a first resolution. In the first, [cf] is the config
    file determined: the explicit path when one is given,
    what the locator finds otherwise. *)
Definition config_file_is (w : world) (config_path : option string) (cf : path) : Prop :=
  (exists s, config_path = Some s /\ s <> "" /\ cf = Path s)
  \/ ((config_path = None \/ config_path = Some "") /\ find_config w = Some cf).


(** The secrets step of [get_settings]:
    [[
    secrets_file = Settings.find_secrets()
    if secrets_file and secrets_file.exists():
        with open(secrets_file, "r", encoding="utf-8") as f:
            yaml_secrets = yaml.safe_load(f) or {}
            merged_settings = deep_merge(merged_settings, yaml_secrets)
    ]] *)
Definition load_secrets (w : world) (merged_settings : pyval) : M pyval :=
  _ ← emit EvFindSecrets;
  match find_secrets w with
  | Some secrets_file =>
      found ← exists_ w secrets_file;
      if found : bool then
        text ← open_read w secrets_file;
        yaml_secrets ← load_yaml text;
        call_deep_merge merged_settings yaml_secrets
      else mret merged_settings
  | None => mret merged_settings
  end.

(** [get_settings(config_path)] *)
Definition get_settings (w : world) (config_path : option string) : M instance :=
  cached ← read_global;
  match cached with
  | Some s => mret s
  | None =>
      config_file ← config_file_of w config_path;
      match config_file with
      | Some config_file =>
          found ← exists_ w config_file;
          if found : bool then
            text ← open_read w config_file;
            yaml_settings ← load_yaml text;
            merged_settings ← load_secrets w yaml_settings;
            s ← Settings_init w merged_settings;
            _ ← write_global s;
            mret s
          else
            s ← Settings_init w (VDict ∅);
            _ ← write_global s;
            mret s
      | None =>
          s ← Settings_init w (VDict ∅);
          _ ← write_global s;
          mret s
      end
  end.

(** A sequence of calls in one process; the surroundings may differ from
    call to call. *)
Fixpoint run_calls (calls : list (world * option string)) (st : pstate)
    : list (outcome instance * list event) * pstate :=
  match calls with
  | [] => ([], st)
  | (w, config_path) :: rest =>
      let '(r, st1, t) := get_settings w config_path st in
      let '(rs, st2) := run_calls rest st1 in
      ((r, t) :: rs, st2)
  end.

End Resolver.

(** *** Named parts, and properties of computations *)

(** The loop of [validate] over the declared fields of a class, on its own:
    [extras] is what the loop starts from. *)
Definition bind_fields (check : ty -> pyval -> outcome pyval)
    (extras kwargs : gmap string pyval)
    : list (field_of ty) -> outcome (gmap string pyval) :=
  fix bind (fs : list (field_of ty)) : outcome (gmap string pyval) :=
    match fs with
    | [] => Ok extras
    | f :: rest =>
        combine (fun x attrs => <[fname f := x]> attrs)
          (bind_field (check (ftype f)) f kwargs) (bind rest)
    end.

(** The construction or the call ended with an exception. *)
Definition failed {A} (o : outcome A) : Prop := o = ValidationError \/ o = Raised.

(** [v[key]] on a mapping *)
Definition subscript (v : pyval) (key : string) : option pyval :=
  match v with VDict d => d !! key | _ => None end.

(** What the last three statements of a first resolution leave behind, by
    the outcome of the class call: the new object in the slot, or the state
    as it was. *)
Definition stored (st : pstate) (o : outcome pyval) : pstate :=
  match o with
  | Ok v => PState (Some (Instance_ (next_id st) v)) (S (next_id st))
  | _ => st
  end.

(** The computation leaves the process state as it found it. *)
Definition keeps_state {A} (m : M A) : Prop :=
  forall st r st' tr, m st = (r, st', tr) -> st' = st.

(** The computation leaves the process state as it found it when it raises. *)
Definition fails_cleanly {A} (m : M A) : Prop :=
  forall st r st' tr, m st = (r, st', tr) -> failed r -> st' = st.

(** Every event of the computation satisfies [P]. *)
Definition only_emits {A} (P : event -> Prop) (m : M A) : Prop :=
  forall st r st' tr, m st = (r, st', tr) -> forall e, e ∈ tr -> P e.

(** Every value the computation returns satisfies [Q]. *)
Definition returns {A} (Q : A -> Prop) (m : M A) : Prop :=
  forall st a st' tr, m st = (Ok a, st', tr) -> Q a.

(** *** Concrete inputs

    The inputs at which the theorems of Part II are instantiated. *)

(** The keywords of [MCPRootSettings(uri=.., name=.., server_uri_alias=..)]
    for string arguments; [name] and [server_uri_alias] may be left out. *)
Definition root_kwargs (uri : string) (name server_uri_alias : option string)
    : gmap string pyval :=
  let kw := {[ "uri" := VStr uri ]} in
  let kw := match name with Some n => <["name" := VStr n]> kw | None => kw end in
  match server_uri_alias with
  | Some a => <["server_uri_alias" := VStr a]> kw
  | None => kw
  end.

(** A schema library with no cross-kind conversion at all. *)
Definition no_lax : prim -> pyval -> option pyval := fun _ _ => None.

(** The trees of the end-to-end example of the specification. *)
Definition example_config : gmap string pyval :=
  {[ "openai" := VDict {[ "api_key" := VStr "cfg-key" ]} ]}.

Definition example_secrets : gmap string pyval :=
  {[ "openai" := VDict {[ "api_key" := VStr "secret-key" ]} ]}.

(** A parser that knows two texts. *)
Definition example_load (text : string) : option pyval :=
  if String.eqb text "config" then Some (VDict example_config)
  else if String.eqb text "secrets" then Some (VDict example_secrets)
  else None.

(** A path resolution that takes the string as one name below the root. *)
Definition example_Path (s : string) : path := [s].

(** A project directory with a config file, and a secrets file two levels
    up. *)
Definition example_world : world :=
  World ["home"; "u"; "proj"] (fun p =>
    if bool_decide (p = ["home"; "u"; "proj"; "mcp-agent.config.yaml"])
    then Some (File "config")
    else if bool_decide (p = ["home"; "u"; "mcp_agent.secrets.yaml"])
    then Some (File "secrets")
    else None).

(** A working directory with a secrets file and no config file anywhere. *)
Definition secrets_only_world : world :=
  World ["home"; "u"] (fun p =>
    if bool_decide (p = ["home"; "u"; "mcp-agent.secrets.yaml"])
    then Some (File "secrets")
    else None).

(** The state of a process that has not resolved its settings yet. *)
Definition fresh_process : pstate := PState None 0.

(** A config file directly in the root, seen from the root and from a
    directory below it. *)
Definition root_world : world :=
  World [] (fun p =>
    if bool_decide (p = ["mcp-agent.config.yaml"]) then Some (File "") else None).

Definition project_world : world :=
  World ["project"] (fun p =>
    if bool_decide (p = ["mcp-agent.config.yaml"]) then Some (File "") else None).

(** A store holding [{a: {x: 1}}] at 0 and [{a: {y: 3}}] at 3. *)
Definition example_heap : heap := [
  HDict {[ "a" := 1 ]}; HDict {[ "x" := 2 ]}; HLeaf (VInt 1);
  HDict {[ "a" := 4 ]}; HDict {[ "y" := 5 ]}; HLeaf (VInt 3)
].

(** The tree of the first end-to-end example of the specification. *)
Definition example_servers : gmap string pyval :=
  {[ "mcp" := VDict {[ "servers" := VDict {[ "foo" :=
       VDict {[ "command" := VStr "npx" ]} ]} ]} ]}.

(** A config tree with one server root. *)
Definition root_config (uri : string) : gmap string pyval :=
  {[ "mcp" := VDict {[ "servers" := VDict {[ "foo" :=
       VDict {[ "roots" := VList [VDict {[ "uri" := VStr uri ]}] ]} ]} ]} ]}.

(** A parser that knows a few more texts, and rejects the others. *)
Definition sample_load (text : string) : option pyval :=
  if String.eqb text "servers" then Some (VDict example_servers)
  else if String.eqb text "list" then Some (VList [VInt 1])
  else if String.eqb text "http-root" then Some (VDict (root_config "http://x"))
  else if String.eqb text "empty" then Some VNone
  else None.

(** A working directory holding one config file with the given text, and
    no secrets file. *)
Definition config_world (text : string) : world :=
  World ["srv"; "app"] (fun p =>
    if bool_decide (p = ["srv"; "app"; "mcp_agent.config.yaml"])
    then Some (File text)
    else None).

(** The same with a secrets file beside it that no parser accepts. *)
Definition bad_secrets_world : world :=
  World ["srv"; "app"] (fun p =>
    if bool_decide (p = ["srv"; "app"; "mcp_agent.config.yaml"])
    then Some (File "servers")
    else if bool_decide (p = ["srv"; "app"; "mcp-agent.secrets.yaml"])
    then Some (File "not yaml")
    else None).

(** Names [BaseSettings.__init__] takes for itself; the releases of the
    settings library differ in the others. *)
Definition BaseSettings_init_params : list string := [
  "case_sensitive"; "nested_model_default_partial_update"; "env_prefix";
  "env_file"; "env_file_encoding"; "env_ignore_empty"; "env_nested_delimiter";
  "env_parse_none_str"; "env_parse_enums"; "secrets_dir"
].

(** The sources after the keywords are the environment variables, the [.env]
    file and the secrets directory. With no matching variable set, no [.env]
    file and no secrets directory, each of them is empty. *)
Definition empty_environment (_ : settings_config) (_ : world)
    (_ : gmap string pyval) : outcome (list (gmap string pyval)) :=
  Ok [∅; ∅; ∅].



(** The same process started with [LOGGER__LEVEL=debug]. *)
Definition debug_environment (_ : settings_config) (_ : world)
    (_ : gmap string pyval) : outcome (list (gmap string pyval)) :=
  Ok [{[ "logger" := VDict {[ "level" := VStr "debug" ]} ]}; ∅; ∅].

(** A config tree and a secrets tree that differ: the secrets give one key
    of a section and leave the others out. *)
Definition openai_config : gmap string pyval :=
  {[ "openai" := VDict {[ "api_key" := VStr "cfg-key";
                          "base_url" := VStr "https://example.org/v1" ]};
     "execution_engine" := VStr "temporal" ]}.

(** A parser that knows these two. *)
Definition openai_load (text : string) : option pyval :=
  if String.eqb text "config" then Some (VDict openai_config)
  else if String.eqb text "secrets" then Some (VDict example_secrets)
  else None.

(** ** Part II. Theorems *)

(** *** deep_merge on trees *)

Lemma map_fold_ext {A B} (f g : string -> A -> B -> B) (b : B) (m : gmap string A) :
  (forall k x r, m !! k = Some x -> f k x r = g k x r) ->
  map_fold f b m = map_fold g b m.
Proof.
  intros Hfg. rewrite !map_fold_foldr.
  assert (Hall : forall k x, (k, x) ∈ map_to_list m -> m !! k = Some x)
    by (intros k x; apply elem_of_map_to_list).
  induction (map_to_list m) as [|[k x] l IH]; simpl; [done|].
  rewrite IH.
  - apply Hfg, Hall. left.
  - intros k' x' Hin. apply Hall. by right.
Qed.

Lemma deep_merge_unfold base update :
  deep_merge base update = map_fold merge_step base update.
Proof.
  unfold deep_merge. simpl. apply map_fold_ext.
  intros k x r _. unfold merge_step, merged_value.
  destruct (r !! k) as [[]|]; try done. by destruct x.
Qed.

Lemma deep_merge_lookup base update k :
  deep_merge base update !! k =
    match update !! k with
    | None => base !! k
    | Some v => Some (merged_value (base !! k) v)
    end.
Proof.
  rewrite deep_merge_unfold.
  apply (map_fold_weak_ind (fun r m =>
    r !! k = match m !! k with
             | None => base !! k
             | Some v => Some (merged_value (base !! k) v)
             end)).
  - by rewrite lookup_empty.
  - intros i x m r Hi IH. unfold merge_step.
    destruct (decide (i = k)) as [->|Hne].
    + rewrite !lookup_insert_eq. rewrite Hi in IH. by rewrite IH.
    + by rewrite !lookup_insert_ne.
Qed.

Lemma shallow_overlay_lookup base update k :
  shallow_overlay base update !! k =
    match update !! k with Some v => Some v | None => base !! k end.
Proof.
  unfold shallow_overlay.
  apply (map_fold_weak_ind (fun r m =>
    r !! k = match m !! k with Some v => Some v | None => base !! k end)).
  - by rewrite lookup_empty.
  - intros i x m r Hi IH.
    destruct (decide (i = k)) as [->|Hne].
    + by rewrite !lookup_insert_eq.
    + by rewrite !lookup_insert_ne.
Qed.

(** C2. For every base and update tree: at a key of [update] whose value and
    whose [base] value are both mappings the result holds the recursive merge
    of the two; at every other key of [update] it holds the update's value
    itself (lists and scalars replace, keys missing from [base] are added); a
    key of [base] alone keeps its value; and the keys of the result are those
    of [base] and of [update]. The merge of [{a: {x: 1, y: 2}}] with
    [{a: {y: 3}}] is [{a: {x: 1, y: 3}}]. *)
Theorem deep_merge_right_biased (base update : gmap string pyval) :
  (forall key b u,
      base !! key = Some (VDict b) -> update !! key = Some (VDict u) ->
      deep_merge base update !! key = Some (VDict (deep_merge b u)))
  /\ (forall key value,
      update !! key = Some value ->
      (forall b, base !! key <> Some (VDict b)) \/ isinstance_dict value = false ->
      deep_merge base update !! key = Some value)
  /\ (forall key, update !! key = None -> deep_merge base update !! key = base !! key)
  /\ dom (deep_merge base update) = dom base ∪ dom update
  /\ deep_merge
       {[ "a" := VDict {[ "x" := VInt 1; "y" := VInt 2 ]} ]}
       {[ "a" := VDict {[ "y" := VInt 3 ]} ]}
     = {[ "a" := VDict {[ "x" := VInt 1; "y" := VInt 3 ]} ]}.
Proof.
  split_and!.
  - intros key b u Hb Hu. by rewrite deep_merge_lookup, Hu, Hb.
  - intros key value Hu Hnot. rewrite deep_merge_lookup, Hu. f_equal.
    unfold merged_value. destruct Hnot as [Hnb|Hnd].
    + destruct (base !! key) as [[]|]; try done. by destruct (Hnb d).
    + destruct value; try done; by destruct (base !! key) as [[]|].
  - intros key Hu. by rewrite deep_merge_lookup, Hu.
  - apply set_eq. intros key.
    rewrite elem_of_union, !elem_of_dom, deep_merge_lookup.
    destruct (update !! key) as [value|].
    + split; [intros _; right; by eexists|intros _; by eexists].
    + split; [intros H; by left|intros [H|[v [=]]]; done].
  - by vm_compute.
Qed.

(** C8. When no key maps to a mapping in both [base] and [update], the deep
    merge is the shallow overlay of [update] onto [base], which is the
    left-biased union of [update] over [base]. *)
Theorem deep_merge_shallow_when_no_overlap (base update : gmap string pyval) :
  (forall key b u,
      base !! key = Some (VDict b) -> update !! key = Some (VDict u) -> False) ->
  deep_merge base update = shallow_overlay base update
  /\ shallow_overlay base update = update ∪ base.
Proof.
  intros Hno. split; apply map_eq; intros k.
  - rewrite deep_merge_lookup, shallow_overlay_lookup.
    destruct (update !! k) as [v|] eqn:Hv; [|done]. f_equal.
    unfold merged_value. destruct (base !! k) as [[]|] eqn:Hb; try done.
    destruct v; try done. by destruct (Hno k _ _ Hb Hv).
  - rewrite shallow_overlay_lookup, lookup_union.
    destruct (update !! k), (base !! k); done.
Qed.

Lemma deep_merge_shallow_witness :
  deep_merge {[ "a" := VDict {[ "x" := VInt 1 ]}; "b" := VInt 2 ]}
             {[ "a" := VList [VInt 7]; "c" := VDict {[ "z" := VNone ]} ]}
  = shallow_overlay {[ "a" := VDict {[ "x" := VInt 1 ]}; "b" := VInt 2 ]}
             {[ "a" := VList [VInt 7]; "c" := VDict {[ "z" := VNone ]} ]}
  /\ shallow_overlay {[ "a" := VDict {[ "x" := VInt 1 ]}; "b" := VInt 2 ]}
             {[ "a" := VList [VInt 7]; "c" := VDict {[ "z" := VNone ]} ]}
     = {[ "a" := VList [VInt 7]; "c" := VDict {[ "z" := VNone ]} ]}
       ∪ {[ "a" := VDict {[ "x" := VInt 1 ]}; "b" := VInt 2 ]}.
Proof.
  apply deep_merge_shallow_when_no_overlap.
  intros key b u Hb Hu.
  destruct (decide (key = "a")) as [->|Ha].
  - vm_compute in Hu. discriminate.
  - destruct (decide (key = "b")) as [->|Hbb].
    + vm_compute in Hb. discriminate.
    + rewrite lookup_insert_ne in Hb by done.
      by rewrite lookup_singleton_ne in Hb.
Defined.

(** *** deep_merge on the object store *)

Lemma depth_dict d :
  depth (VDict d) = S (map_fold (fun _ x acc => Nat.max (depth x) acc) 0 d).
Proof. reflexivity. Qed.

Lemma depth_lookup d k v : d !! k = Some v -> depth v < depth (VDict d).
Proof.
  rewrite depth_dict. revert k v.
  apply (map_fold_weak_ind (fun r m => forall k v, m !! k = Some v -> depth v < S r)).
  - intros k v. by rewrite lookup_empty.
  - intros i x m r Hi IH k v. destruct (decide (i = k)) as [->|Hne].
    + rewrite lookup_insert_eq. intros [= ->]. lia.
    + rewrite lookup_insert_ne by done. intros H%IH. lia.
Qed.

Lemma repr_mono h hx l v : heap_incl h hx -> repr h l v -> repr hx l v.
Proof.
  intros Hincl Hr. induction Hr as [l v Hl Hv | l es d Hl Hdom Hsub IH].
  - apply repr_leaf; [|done]. apply Hincl; [done|lia].
  - eapply repr_dict; [|done|done]. apply Hincl; [done|lia].
Qed.

Lemma repr_is_hdict h l v : repr h l v -> is_hdict h l = isinstance_dict v.
Proof.
  intros [l' v' Hl Hv | l' es d Hl _ _]; unfold is_hdict; rewrite Hl; done.
Qed.

Lemma lookup_alloc (h : heap) o : (h ++ [o]) !! length h = Some o.
Proof. by rewrite list_lookup_middle. Qed.

Lemma heap_incl_lookup (h hx : heap) l o :
  heap_incl h hx -> h !! l = Some o -> hx !! l = Some o.
Proof. intros Hincl Hl. apply Hincl; [done|lia]. Qed.

Lemma heap_incl_alloc (h : heap) o : heap_incl h (h ++ [o]).
Proof. intros l o' Hl _. by apply lookup_app_l_Some. Qed.

Lemma heap_incl_trans (h1 h2 h3 : heap) :
  heap_incl h1 h2 -> heap_incl h2 h3 -> heap_incl h1 h3.
Proof. intros H12 H23 l o Hl _. apply H23; [|lia]. apply H12; [done|lia]. Qed.

Lemma heap_incl_length (h hx : heap) : heap_incl h hx -> length h <= length hx.
Proof.
  intros Hincl. destruct (decide (length h = 0)) as [|Hne]; [lia|].
  destruct (lookup_lt_is_Some_2 h (pred (length h))) as [o Ho]; [lia|].
  apply (heap_incl_lookup _ _ _ _ Hincl) in Ho. apply lookup_lt_Some in Ho. lia.
Qed.

Lemma setitem_Some (h : heap) merged key value entries :
  h !! merged = Some (HDict entries) ->
  setitem h merged key value = Some (<[merged := HDict (<[key := value]> entries)]> h).
Proof. intros H. unfold setitem. by rewrite H. Qed.

Lemma getitem_Some (h : heap) merged key entries :
  h !! merged = Some (HDict entries) -> getitem h merged key = entries !! key.
Proof. intros H. unfold getitem. by rewrite H. Qed.

Lemma deep_merge_h_S fuel h base update :
  deep_merge_h (S fuel) h base update =
    match copy h base with
    | None => Fault h
    | Some (h1, merged) =>
        match h1 !! update with
        | Some (HDict items) =>
            map_fold (merge_step_h (deep_merge_h fuel) merged) (Done h1 merged) items
        | _ => Fault h1
        end
    end.
Proof. reflexivity. Qed.

Lemma deep_merge_h_refines fuel : forall h0 h base update bd ud,
  heap_incl h0 h ->
  repr h0 base (VDict bd) -> repr h0 update (VDict ud) ->
  depth (VDict ud) <= fuel ->
  exists h' r,
    deep_merge_h fuel h base update = Done h' r /\
    heap_incl h h' /\ length h <= r /\
    forall hx, unchanged_outside (length h0) (length h) h' hx ->
               repr hx r (VDict (deep_merge bd ud)).
Proof.
  induction fuel as [|fuel IH]; intros h0 h base update bd ud Hh0 Hb Hu Hfuel.
  { rewrite depth_dict in Hfuel. lia. }
  inversion Hb as [? ? ? Hnd | ? eb ? Hbl Hbdom Hbsub]; subst; [done|].
  inversion Hu as [? ? ? Hnd | ? eu ? Hul Hudom Husub]; subst; [done|].
  assert (Hlen0 : length h0 <= length h) by by apply heap_incl_length.
  rewrite deep_merge_h_S. unfold copy.
  rewrite (heap_incl_lookup _ _ _ _ Hh0 Hbl). unfold alloc.
  set (merged := length h). set (h1 := h ++ [HDict eb]).
  assert (Hul1 : h1 !! update = Some (HDict eu)).
  { eapply heap_incl_lookup; [apply heap_incl_alloc|]. by eapply heap_incl_lookup. }
  rewrite Hul1.
  pose (Inv := fun (acc : result) (m : gmap string loc) =>
    exists hc em,
      acc = Done hc merged /\
      unchanged_outside merged (S merged) h1 hc /\
      hc !! merged = Some (HDict em) /\
      (forall k, m !! k = None -> em !! k = eb !! k) /\
      (forall k x, m !! k = Some x ->
         exists rl, em !! k = Some rl /\
           forall v, ud !! k = Some v ->
           forall hx, unchanged_outside (length h0) (S merged) hc hx ->
                      repr hx rl (merged_value (bd !! k) v))).
  assert (Hfold : eu ⊆ eu ->
            Inv (map_fold (merge_step_h (deep_merge_h fuel) merged) (Done h1 merged) eu) eu).
  { apply (map_fold_weak_ind (fun acc m => m ⊆ eu -> Inv acc m)).
    - intros _. exists h1, eb. split_and!; try done.
      + by intros l o Hl _.
      + apply lookup_alloc.
    - intros i x m acc Hi IHm Hsub.
      assert (Hm : m ⊆ eu).
      { etrans; [|exact Hsub]. by apply insert_subseteq. }
      assert (Hix : eu !! i = Some x).
      { eapply lookup_weaken; [|exact Hsub]. apply lookup_insert_eq. }
      destruct (IHm Hm) as (hc & em & -> & Hout & Hmerged & Hkeep & Hdone).
      destruct (ud !! i) as [v|] eqn:Hv; [|apply Hudom in Hv; congruence].
      assert (Hxv : repr h0 x v) by eauto.
      assert (Hhc : heap_incl h hc).
      { intros l o Hl _. apply Hout.
        - eapply heap_incl_lookup; [apply heap_incl_alloc|done].
        - left. apply lookup_lt_Some in Hl. unfold merged. lia. }
      assert (Hh0c : heap_incl h0 hc) by (eapply heap_incl_trans; eauto).
      (* storing a reference [rl] in [merged], in a store [hc'] that extends [hc] *)
      assert (Hstore : forall hc' rl,
        heap_incl hc hc' ->
        (forall hx,
           unchanged_outside (length h0) (S merged)
             (<[merged := HDict (<[i := rl]> em)]> hc') hx ->
           repr hx rl (merged_value (bd !! i) v)) ->
        Inv (Done (<[merged := HDict (<[i := rl]> em)]> hc') merged) (<[i := x]> m)).
      { intros hc' rl Hcc' Hrl.
        assert (Hm' : hc' !! merged = Some (HDict em)) by (apply Hcc'; [done|lia]).
        assert (Hlt : merged < length hc') by (by eapply lookup_lt_Some).
        exists (<[merged := HDict (<[i := rl]> em)]> hc'), (<[i := rl]> em).
        split_and!; try done.
        - intros l o Hl Hrange. rewrite list_lookup_insert_ne by lia.
          apply Hcc'; [|lia]. by apply Hout.
        - by apply list_lookup_insert_eq.
        - intros k Hk. apply lookup_insert_None in Hk as [Hk Hne].
          rewrite lookup_insert_ne by done. by apply Hkeep.
        - intros k y Hk. destruct (decide (i = k)) as [<-|Hne].
          + exists rl. rewrite lookup_insert_eq. split; [done|].
            intros v' Hv'. rewrite Hv in Hv'. injection Hv' as <-. exact Hrl.
          + rewrite lookup_insert_ne in Hk by done.
            destruct (Hdone k y Hk) as (rl' & Hrl' & Hrepr).
            exists rl'. rewrite lookup_insert_ne by done. split; [done|].
            intros v' Hv' hx Hhx. apply (Hrepr v' Hv').
            intros l o Hl Hrange. apply Hhx; [|done].
            rewrite list_lookup_insert_ne by (unfold merged in *; lia).
            apply Hcc'; [done|lia]. }
      (* a reference of the original store holds its tree in every later store *)
      assert (Hold : forall hc' rl,
        heap_incl hc hc' -> repr h0 rl (merged_value (bd !! i) v) ->
        forall hx,
          unchanged_outside (length h0) (S merged)
            (<[merged := HDict (<[i := rl]> em)]> hc') hx ->
          repr hx rl (merged_value (bd !! i) v)).
      { intros hc' rl Hcc' Hrl hx Hhx. eapply repr_mono; [|exact Hrl].
        intros l o Hl _. apply Hhx; [|left; by eapply lookup_lt_Some].
        apply lookup_lt_Some in Hl as Hlt.
        rewrite list_lookup_insert_ne by (unfold merged; lia).
        apply Hcc'; [|lia]. apply Hh0c; [done|lia]. }
      assert (Hhchc : heap_incl hc hc) by (by intros ? ? ? ?).
      unfold merge_step_h. rewrite (getitem_Some _ _ _ _ Hmerged).
      rewrite (Hkeep i Hi).
      destruct (eb !! i) as [bl|] eqn:Hbi.
      + destruct (bd !! i) as [bv|] eqn:Hbv; [|apply Hbdom in Hbv; congruence].
        assert (Hblv : repr h0 bl bv) by eauto.
        rewrite (repr_is_hdict hc bl bv) by (eapply repr_mono; [exact Hh0c|exact Hblv]).
        rewrite (repr_is_hdict hc x v) by (eapply repr_mono; [exact Hh0c|exact Hxv]).
        destruct bv as [| | | | | |b'|]; simpl;
          try (rewrite (setitem_Some _ _ _ _ _ Hmerged);
               apply Hstore; [done|]; apply Hold; [done|]; exact Hxv).
        destruct v as [| | | | | |u'|]; simpl;
          try (rewrite (setitem_Some _ _ _ _ _ Hmerged);
               apply Hstore; [done|]; apply Hold; [done|]; exact Hxv).
        destruct (IH h0 hc bl x b' u' Hh0c Hblv Hxv) as (h' & r & -> & Hch' & _ & Hr).
        { apply depth_lookup in Hv. lia. }
        assert (Hm' : h' !! merged = Some (HDict em)) by (apply Hch'; [done|lia]).
        rewrite (setitem_Some _ _ _ _ _ Hm').
        apply Hstore; [done|]. simpl.
        intros hx Hhx. apply Hr. intros l o Hl Hrange.
        assert (Hlc : S merged <= length hc).
        { apply lookup_lt_Some in Hmerged. lia. }
        apply Hhx; [|lia].
        rewrite list_lookup_insert_ne by (unfold merged in *; lia). done.
      + assert (Hbv : bd !! i = None) by (by apply Hbdom).
        rewrite (setitem_Some _ _ _ _ _ Hmerged).
        apply Hstore; [done|]. apply Hold; [done|]. rewrite Hbv. exact Hxv. }
  destruct (Hfold (reflexivity _)) as (hc & em & -> & Hout & Hmerged & Hkeep & Hdone).
  assert (Hhc : heap_incl h hc).
  { intros l o Hl _. apply Hout.
    - eapply heap_incl_lookup; [apply heap_incl_alloc|done].
    - left. apply lookup_lt_Some in Hl. unfold merged. lia. }
  exists hc, merged. split_and!; [done|done|done|].
  intros hx Hhx.
  assert (Hh0x : heap_incl h0 hx).
  { intros l o Hl _. apply Hhx; [|left; by eapply lookup_lt_Some].
    apply Hhc; [|lia]. apply Hh0; [done|lia]. }
  eapply repr_dict.
  - apply Hhx; [done|]. right. unfold merged. lia.
  - intros k. rewrite deep_merge_lookup.
    destruct (eu !! k) as [x|] eqn:Hx.
    + destruct (Hdone k x Hx) as (rl & -> & _).
      destruct (ud !! k) eqn:Hv; [done|]. apply Hudom in Hv. congruence.
    + rewrite (Hkeep k Hx). apply Hudom in Hx. rewrite Hx. apply Hbdom.
  - intros k l' v'. rewrite deep_merge_lookup.
    destruct (eu !! k) as [x|] eqn:Hx.
    + destruct (Hdone k x Hx) as (rl & -> & Hrepr). intros [= <-].
      destruct (ud !! k) as [v|] eqn:Hv; [|apply Hudom in Hv; congruence].
      intros [= <-].
      apply (Hrepr v); [done|].
      intros l o Hl Hrange. apply Hhx; [done|]. unfold merged in *. lia.
    + rewrite (Hkeep k Hx). apply Hudom in Hx as Hv. rewrite Hv.
      intros Hl' Hv'. eapply repr_mono; [exact Hh0x|]. eauto.
Qed.

Lemma heap_incl_refl (h : heap) : heap_incl h h.
Proof. by intros l o Hl _. Qed.

Lemma setitem_incl (h hc : heap) merged key value h' :
  heap_incl h hc -> length h <= merged ->
  setitem hc merged key value = Some h' -> heap_incl h h'.
Proof.
  intros Hincl Hle. unfold setitem.
  destruct (hc !! merged) as [[entries|]|]; intros [= <-]. 
  intros l o Hl _. apply lookup_lt_Some in Hl as Hlt.
  rewrite list_lookup_insert_ne by lia. by eapply heap_incl_lookup.
Qed.

(** Whatever the arguments are and however the call ends, every object of
    the store it started in is still there, unchanged. *)
Lemma deep_merge_h_frame fuel : forall h base update,
  match deep_merge_h fuel h base update with
  | Done h' _ | Fault h' => heap_incl h h'
  | OutOfFuel => True
  end.
Proof.
  induction fuel as [|fuel IH]; intros h base update; [done|].
  rewrite deep_merge_h_S.
  assert (Hcopy : copy h base = None \/ exists o, copy h base = Some (h ++ [o], length h)).
  { unfold copy, alloc. destruct (h !! base) as [[entries|[]]|]; eauto. }
  destruct Hcopy as [->|[o ->]]; [apply heap_incl_refl|].
  assert (H1 : heap_incl h (h ++ [o])) by apply heap_incl_alloc.
  destruct ((h ++ [o]) !! update) as [[items|]|]; [|done|done].
  apply (map_fold_weak_ind (fun acc (_ : gmap string nat) =>
    match acc with
    | Done h' _ | Fault h' => heap_incl h h'
    | OutOfFuel => True
    end)); [done|].
  intros key value m acc _ Hacc. unfold merge_step_h.
  destruct acc as [hc r| |]; [|done|done].
  assert (Hset : forall hc' v, heap_incl h hc' ->
    match match setitem hc' (length h) key v with
          | Some h'' => Done h'' (length h)
          | None => Fault hc'
          end with
    | Done h' _ | Fault h' => heap_incl h h'
    | OutOfFuel => True
    end).
  { intros hc' v Hc'. destruct (setitem hc' (length h) key v) eqn:Hs; [|done].
    by eapply setitem_incl. }
  destruct (getitem hc (length h) key) as [b|]; [|by apply Hset].
  destruct (is_hdict hc b && is_hdict hc value); [|by apply Hset].
  specialize (IH hc b value).
  destruct (deep_merge_h fuel hc b value) as [h' r'| |]; [| |done].
  - apply Hset. by eapply heap_incl_trans.
  - by eapply heap_incl_trans.
Qed.

Lemma repr_lt (h : heap) l v : repr h l v -> l < length h.
Proof. intros [? ? Hl _|? ? ? Hl _ _]; by apply lookup_lt_Some in Hl. Qed.

(** C7. In a store that holds the tree [bd] at [base] and the tree [ud] at
    [update], the call returns (given fuel for the depth of [ud]) a new
    object holding the merged tree; every object of the store before the
    call is unchanged after it, so [base] still holds exactly [bd]. *)
Theorem deep_merge_leaves_base_unchanged (h : heap) (base update : loc)
    (bd ud : gmap string pyval) (fuel : nat) :
  repr h base (VDict bd) ->
  repr h update (VDict ud) ->
  depth (VDict ud) <= fuel ->
  exists h' merged,
    deep_merge_h fuel h base update = Done h' merged
    /\ (forall l o, h !! l = Some o -> h' !! l = Some o)
    /\ repr h' base (VDict bd)
    /\ merged <> base
    /\ repr h' merged (VDict (deep_merge bd ud)).
Proof.
  intros Hb Hu Hfuel.
  destruct (deep_merge_h_refines fuel h h base update bd ud)
    as (h' & r & Hrun & Hincl & Hfresh & Hr); [apply heap_incl_refl|done..|].
  exists h', r. split_and!; [done| | | |].
  - intros l o Hl. by eapply heap_incl_lookup.
  - by eapply repr_mono.
  - apply repr_lt in Hb. lia.
  - apply Hr. by intros l o Hl _.
Qed.

Lemma repr_dict_singleton (h : heap) l k l' v :
  h !! l = Some (HDict {[ k := l' ]}) -> repr h l' v ->
  repr h l (VDict {[ k := v ]}).
Proof.
  intros Hl Hv. eapply repr_dict; [done| |].
  - intros k0. by rewrite !lookup_singleton_None.
  - intros k0 l0 v0 [<- <-]%lookup_singleton_Some [_ <-]%lookup_singleton_Some. done.
Qed.

Lemma deep_merge_leaves_base_unchanged_witness :
  exists h' merged,
    deep_merge_h 2 example_heap 0 3 = Done h' merged
    /\ (forall l o, example_heap !! l = Some o -> h' !! l = Some o)
    /\ repr h' 0 (VDict {[ "a" := VDict {[ "x" := VInt 1 ]} ]})
    /\ merged <> 0
    /\ repr h' merged
         (VDict (deep_merge {[ "a" := VDict {[ "x" := VInt 1 ]} ]}
                            {[ "a" := VDict {[ "y" := VInt 3 ]} ]})).
Proof.
  apply (deep_merge_leaves_base_unchanged example_heap 0 3
           {[ "a" := VDict {[ "x" := VInt 1 ]} ]}
           {[ "a" := VDict {[ "y" := VInt 3 ]} ]} 2).
  - apply (repr_dict_singleton _ 0 "a" 1); [reflexivity|].
    apply (repr_dict_singleton _ 1 "x" 2); [reflexivity|].
    by apply repr_leaf.
  - apply (repr_dict_singleton _ 3 "a" 4); [reflexivity|].
    apply (repr_dict_singleton _ 4 "y" 5); [reflexivity|].
    by apply repr_leaf.
  - vm_compute. lia.
Defined.

Example deep_merge_h_example :
  deep_merge_h 2 example_heap 0 3 =
    Done (example_heap ++ [HDict {[ "a" := 7 ]}; HDict {[ "x" := 2; "y" := 5 ]}]) 6.
Proof. vm_compute. reflexivity. Qed.

(** *** The locator *)

Lemma parent_length (p : list string) : length (parent p) = pred (length p).
Proof. unfold parent. rewrite removelast_firstn_len, length_take. lia. Qed.

Lemma parent_fixpoint (p : list string) : p = parent p <-> p = [].
Proof.
  split; [|by intros ->].
  intros Hp. apply (f_equal length) in Hp. rewrite parent_length in Hp.
  destruct p; [done|]. simpl in Hp. lia.
Qed.

(** The loop ends before its fuel does: any fuel above the depth of the
    starting directory gives the same result. *)
Lemma find_loop_fuel w filenames : forall n m (p : list string),
  length p < n -> length p < m ->
  find_loop n w filenames p = find_loop m w filenames p.
Proof.
  induction n as [|n IH]; intros m p Hn Hm; [lia|].
  destruct m as [|m]; [lia|]. cbn [find_loop].
  case_bool_decide as Hp; [|done].
  destruct (first_existing w p filenames); [done|].
  assert (p <> []) by (intros ->; by apply Hp).
  apply IH; rewrite parent_length; destruct p; simpl in *; try done; lia.
Qed.

(** At the root the loop condition fails at once: nothing is tested there. *)
Lemma find_loop_root n w filenames : find_loop n w filenames [] = None.
Proof. by destruct n. Qed.

Lemma first_existing_Some w d filenames p :
  first_existing w d filenames = Some p ->
  exists filename, filename ∈ filenames /\ p = joinpath d filename /\ path_exists w p = true.
Proof.
  induction filenames as [|f fs IH]; [done|]. cbn [first_existing].
  destruct (path_exists w (joinpath d f)) eqn:Hex.
  - intros [= <-]. exists f. split_and!; [left|done|done].
  - intros (f' & Hin & -> & Hp)%IH. exists f'. split_and!; [by right|done|done].
Qed.

(** What the locator returns exists, and lies in the working directory or
    one of its ancestors, but never directly in the root. *)
Lemma find_loop_Some n w filenames : forall (start p : list string),
  find_loop n w filenames start = Some p ->
  exists d filename,
    d `prefix_of` start /\ d <> [] /\ filename ∈ filenames /\
    p = joinpath d filename /\ path_exists w p = true.
Proof.
  induction n as [|n IH]; intros start p; [done|]. cbn [find_loop].
  case_bool_decide as Hp; [|done].
  assert (start <> []) by (intros ->; by apply Hp).
  destruct (first_existing w start filenames) as [q|] eqn:Hq.
  - intros [= <-]. apply first_existing_Some in Hq as (f & Hin & -> & Hex).
    by exists start, f.
  - intros (d & f & Hd & Hne & Hin & -> & Hex)%IH. exists d, f.
    split_and!; try done. etrans; [exact Hd|].
    unfold parent. rewrite removelast_firstn_len. apply prefix_take.
Qed.

(** The nearest match wins: a candidate in the working directory (when that
    is not the root) is returned, and it is the first one in the given order. *)
Lemma find_config_nearest w filenames p :
  cwd w <> [] ->
  first_existing w (cwd w) filenames = Some p ->
  _find_config w filenames = Some p.
Proof.
  intros Hne Hp. unfold _find_config. cbn [find_loop].
  rewrite bool_decide_true by (by intros ?%parent_fixpoint). by rewrite Hp.
Qed.

(** Finding nothing is an ordinary result. *)
Lemma find_config_not_found w filenames :
  (forall d filename, d `prefix_of` cwd w -> path_exists w (joinpath d filename) = false) ->
  _find_config w filenames = None.
Proof.
  intros Hnone. destruct (_find_config w filenames) as [p|] eqn:Hp; [|done].
  apply find_loop_Some in Hp as (d & f & Hd & _ & _ & -> & Hex).
  by rewrite Hnone in Hex.
Qed.

(** C1, at the inputs where the code departs from it. The specification has
    the root examined like every other directory. With the working directory at
    the root and [mcp-agent.config.yaml] existing there, the locator returns
    "not found"; the same from a directory below the root when the file is in
    the root; and started at the root it finds nothing whatever exists. *)
Theorem find_config_skips_the_root :
  path_exists root_world (joinpath [] "mcp-agent.config.yaml") = true
  /\ _find_config root_world config_filenames = None
  /\ path_exists project_world (joinpath (parent (cwd project_world)) "mcp-agent.config.yaml") = true
  /\ _find_config project_world config_filenames = None
  /\ (forall w filenames, cwd w = [] -> _find_config w filenames = None).
Proof.
  split_and!; try (vm_compute; reflexivity).
  intros w filenames Hcwd. unfold _find_config. rewrite Hcwd. apply find_loop_root.
Qed.

(** *** The schema *)

Section SchemaFacts.
Context (lax : prim -> pyval -> option pyval).

Lemma validate_uri_str s :
  validate_uri (VStr s) = if startswith s "file://" then Ok (VStr s) else ValidationError.
Proof. unfold validate_uri. by destruct (startswith s "file://"). Qed.

Lemma root_kwargs_uri uri name alias :
  root_kwargs uri name alias !! "uri" = Some (VStr uri).
Proof. destruct name, alias; vm_compute; reflexivity. Qed.

Lemma root_kwargs_name uri name alias :
  root_kwargs uri name alias !! "name" = VStr <$> name.
Proof. destruct name, alias; vm_compute; reflexivity. Qed.

Lemma root_kwargs_alias uri name alias :
  root_kwargs uri name alias !! "server_uri_alias" = VStr <$> alias.
Proof. destruct name, alias; vm_compute; reflexivity. Qed.

(** The outcome of [MCPRootSettings(uri=.., name=.., server_uri_alias=..)]
    for string arguments, [name] and [server_uri_alias] being optional. *)
Lemma construct_root uri name alias :
  let accepted :=
    startswith uri "file://" &&
    match alias with Some a => startswith a "file://" | None => true end in
  (accepted = true ->
     exists attrs,
       construct lax MCPRootSettings (root_kwargs uri name alias) =
         Ok (VObj "MCPRootSettings" attrs)
       /\ attrs !! "uri" = Some (VStr uri))
  /\ (accepted = false ->
       construct lax MCPRootSettings (root_kwargs uri name alias) = ValidationError).
Proof.
  unfold construct, MCPRootSettings. cbn [validate].
  unfold bind_field. cbn [fname ftype fafter fdefault optional str validate].
  rewrite root_kwargs_uri, root_kwargs_name, root_kwargs_alias.
  set (extras := extras_of _ _ _).
  destruct name as [n|], alias as [a|];
    cbn [fmap option_fmap option_map outcome_bind validate_prim];
    rewrite ?validate_uri_str;
    destruct (startswith uri "file://"); try destruct (startswith a "file://");
    cbn [combine outcome_map andb]; (split; [|done]); intros; try done;
    eexists; (split; [reflexivity|]); apply lookup_insert_eq.
Qed.

(** C6 (amended). Constructing an [MCPRootSettings] from string arguments
    fails with a validation error if and only if [uri] does not start with
    [file://] or a [server_uri_alias] is given that does not start with
    [file://]; it never ends otherwise than with a record or a validation
    error. With [uri = file:///tmp/x] alone it succeeds, and any [uri]
    without the prefix is rejected. *)
Theorem MCPRootSettings_validation uri name server_uri_alias :
  (construct lax MCPRootSettings (root_kwargs uri name server_uri_alias) = ValidationError
   <-> startswith uri "file://" = false
       \/ exists a, server_uri_alias = Some a /\ startswith a "file://" = false)
  /\ (startswith uri "file://" = true ->
      (forall a, server_uri_alias = Some a -> startswith a "file://" = true) ->
      exists attrs,
        construct lax MCPRootSettings (root_kwargs uri name server_uri_alias) =
          Ok (VObj "MCPRootSettings" attrs)
        /\ attrs !! "uri" = Some (VStr uri))
  /\ (exists attrs,
        construct lax MCPRootSettings (root_kwargs "file:///tmp/x" None None) =
          Ok (VObj "MCPRootSettings" attrs)).
Proof.
  destruct (construct_root uri name server_uri_alias) as [Hok Hbad].
  split_and!.
  - split.
    + intros Hfail.
      destruct (startswith uri "file://") eqn:Huri; [|by left]. right.
      destruct server_uri_alias as [a|].
      * destruct (startswith a "file://") eqn:Ha; [|by exists a].
        destruct Hok as (attrs & Hc & _); [done|congruence].
      * destruct Hok as (attrs & Hc & _); [done|congruence].
    + intros [Huri|(a & -> & Ha)]; apply Hbad.
      * by rewrite Huri.
      * rewrite Ha. apply andb_false_r.
  - intros Huri Halias. apply Hok. rewrite Huri. simpl.
    destruct server_uri_alias as [a|]; [by apply Halias|done].
  - destruct (construct_root "file:///tmp/x" None None) as [(attrs & Hc & _) _];
      [reflexivity|]. by exists attrs.
Qed.

(** C10. A [server_uri_alias] string that does not start with [file://]
    makes the construction fail with a validation error, whatever [uri] is
    (a valid one included). *)
Theorem server_uri_alias_is_validated uri name a :
  startswith a "file://" = false ->
  construct lax MCPRootSettings (root_kwargs uri name (Some a)) = ValidationError.
Proof.
  intros Ha. apply (construct_root uri name (Some a)).
  rewrite Ha. apply andb_false_r.
Qed.

End SchemaFacts.

Lemma MCPRootSettings_uri_not_sufficient :
  startswith "file:///tmp/x" "file://" = true
  /\ construct no_lax MCPRootSettings
       (root_kwargs "file:///tmp/x" None (Some "/srv/x")) = ValidationError.
Proof. split; vm_compute; reflexivity. Qed.

Lemma server_uri_alias_is_validated_witness :
  construct no_lax MCPRootSettings
    (root_kwargs "file:///tmp/x" None (Some "/srv/x")) = ValidationError.
Proof.
  apply (server_uri_alias_is_validated no_lax "file:///tmp/x" None "/srv/x").
  reflexivity.
Defined.

(** *** More on the locator *)

Lemma first_existing_None w d filenames :
  first_existing w d filenames = None <->
  forall filename, filename ∈ filenames -> path_exists w (joinpath d filename) = false.
Proof.
  induction filenames as [|f fs IH]; cbn [first_existing].
  - split; [|done]. intros _ f Hf. by apply elem_of_nil in Hf.
  - destruct (path_exists w (joinpath d f)) eqn:Hex.
    + split; [done|]. intros Hall. rewrite Hall in Hex; [done|left].
    + rewrite IH. split.
      * intros Hall f' [->|Hin]%elem_of_cons; [done|by apply Hall].
      * intros Hall f' Hin. apply Hall. by right.
Qed.

Lemma prefix_parent (d l : list string) :
  d `prefix_of` l -> d = l \/ d `prefix_of` parent l.
Proof.
  intros [k ->]. destruct (decide (k = [])) as [->|Hk].
  - left. by rewrite app_nil_r.
  - right. unfold parent. rewrite removelast_app by done. by apply prefix_app_r.
Qed.

Lemma parent_prefix (l : list string) : parent l `prefix_of` l.
Proof. unfold parent. rewrite removelast_firstn_len. apply prefix_take. Qed.

Lemma find_loop_None n w filenames : forall start : list string,
  length start < n ->
  find_loop n w filenames start = None ->
  forall d filename,
    d `prefix_of` start -> d <> [] -> filename ∈ filenames ->
    path_exists w (joinpath d filename) = false.
Proof.
  induction n as [|n IH]; intros start Hn; [lia|]. cbn [find_loop].
  case_bool_decide as Hp.
  - destruct (first_existing w start filenames) eqn:Hfirst; [done|].
    intros Hrest d f Hd Hne Hf.
    destruct (prefix_parent d start Hd) as [->|Hd'].
    + by eapply first_existing_None.
    + eapply (IH (parent start)); try done.
      rewrite parent_length. destruct start; simpl in *; [done|lia].
  - intros _ d f Hd Hne _. apply parent_fixpoint in Hp.
    subst start. by apply prefix_nil_inv in Hd.
Qed.

(** X5. The locator returns "not found" exactly when no candidate exists
    in the working directory or any of its ancestors other than the root. *)
Theorem find_config_None_iff w filenames :
  _find_config w filenames = None <->
  forall d filename,
    d `prefix_of` cwd w -> d <> [] -> filename ∈ filenames ->
    path_exists w (joinpath d filename) = false.
Proof.
  split.
  - apply find_loop_None. lia.
  - intros Hnone. destruct (_find_config w filenames) as [p|] eqn:Hp; [|done].
    apply find_loop_Some in Hp as (d & f & Hd & Hne & Hf & -> & Hex).
    by rewrite Hnone in Hex.
Qed.

Lemma find_loop_nearest n w filenames : forall (start p : list string),
  find_loop n w filenames start = Some p ->
  exists d,
    d `prefix_of` start /\ d <> [] /\
    first_existing w d filenames = Some p /\
    forall d', d `prefix_of` d' -> d' `prefix_of` start -> d' <> d ->
               first_existing w d' filenames = None.
Proof.
  induction n as [|n IH]; intros start p; [done|]. cbn [find_loop].
  case_bool_decide as Hp; [|done].
  assert (start <> []) by (intros ->; by apply Hp).
  destruct (first_existing w start filenames) as [q|] eqn:Hq.
  - intros [= <-]. exists start. split_and!; try done.
    intros d' H1 H2 Hne. destruct Hne. by apply (anti_symm prefix).
  - intros (d & Hd & Hne & Hfirst & Hnear)%IH. exists d.
    split_and!; try done.
    + etrans; [exact Hd|apply parent_prefix].
    + intros d' H1 H2 Hne'. destruct (prefix_parent d' start H2) as [->|H2']; [done|].
      by apply Hnear.
Qed.

(** X6. What the locator returns is the first existing candidate, in the
    given order, of a directory [d] between the root (excluded) and the
    working directory, and no candidate exists in any directory strictly
    below [d] on the way to the working directory. *)
Theorem find_config_nearest_first w filenames p :
  _find_config w filenames = Some p ->
  exists d,
    d `prefix_of` cwd w /\ d <> [] /\
    first_existing w d filenames = Some p /\
    forall d' filename,
      d `prefix_of` d' -> d' `prefix_of` cwd w -> d' <> d ->
      filename ∈ filenames -> path_exists w (joinpath d' filename) = false.
Proof.
  intros (d & Hd & Hne & Hfirst & Hnear)%find_loop_nearest.
  exists d. split_and!; try done.
  intros d' f H1 H2 Hne' Hf. by eapply first_existing_None; [apply Hnear|].
Qed.

(** The first candidate is tried before the second. *)
Lemma first_existing_order w d f1 f2 rest :
  first_existing w d (f1 :: f2 :: rest) = Some (joinpath d f2) ->
  f1 <> f2 -> path_exists w (joinpath d f1) = false.
Proof.
  cbn [first_existing]. destruct (path_exists w (joinpath d f1)); [|done].
  intros [= Heq] Hne. unfold joinpath in Heq. apply app_inv_head in Heq.
  congruence.
Qed.

(** X7. In the directory of the match the underscored name is returned only
    when the hyphenated one does not exist there, for config and for secrets
    files alike. *)
Theorem find_config_prefers_hyphen w d :
  (find_config w = Some (joinpath d "mcp_agent.config.yaml") ->
   path_exists w (joinpath d "mcp-agent.config.yaml") = false)
  /\ (find_secrets w = Some (joinpath d "mcp_agent.secrets.yaml") ->
      path_exists w (joinpath d "mcp-agent.secrets.yaml") = false).
Proof.
  split; intros (d0 & _ & _ & Hfirst & _)%find_loop_nearest.
  - destruct (first_existing_Some _ _ _ _ Hfirst) as (f & _ & Heq & _).
    apply app_inj_tail in Heq as [-> _].
    by apply (first_existing_order w d0 _ _ [] Hfirst).
  - destruct (first_existing_Some _ _ _ _ Hfirst) as (f & _ & Heq & _).
    apply app_inj_tail in Heq as [-> _].
    by apply (first_existing_order w d0 _ _ [] Hfirst).
Qed.

(** X4. A path returned by the locator exists, is a candidate name joined to
    the working directory or one of its ancestors, and never lies directly
    in the root. *)
Theorem find_config_sound w filenames p :
  _find_config w filenames = Some p ->
  exists d filename,
    d `prefix_of` cwd w /\ d <> [] /\ filename ∈ filenames /\
    p = joinpath d filename /\ path_exists w p = true.
Proof. apply find_loop_Some. Qed.

(** *** More on deep_merge *)

(** X8. The empty tree is a two-sided identity of the merge: an empty update
    changes nothing, and merging into an empty base gives the update. *)
Theorem deep_merge_empty (d : gmap string pyval) :
  deep_merge d ∅ = d /\ deep_merge ∅ d = d.
Proof.
  split; apply map_eq; intros k; rewrite deep_merge_lookup.
  - by rewrite lookup_empty.
  - rewrite lookup_empty. by destruct (d !! k).
Qed.

Lemma merged_value_not_dict current value :
  isinstance_dict value = false -> merged_value current value = value.
Proof. intros Hv. destruct value; try done; by destruct current as [[]|]. Qed.

Lemma deep_merge_absorb_depth n : forall update,
  depth (VDict update) <= n ->
  deep_merge update update = update
  /\ forall base, deep_merge (deep_merge base update) update = deep_merge base update.
Proof.
  induction n as [|n IH]; intros update Hn.
  { rewrite depth_dict in Hn. lia. }
  assert (Hsub : forall k u, update !! k = Some (VDict u) ->
            deep_merge u u = u
            /\ forall b, deep_merge (deep_merge b u) u = deep_merge b u).
  { intros k u Hk. apply IH. apply depth_lookup in Hk. lia. }
  split.
  - apply map_eq. intros k. rewrite deep_merge_lookup.
    destruct (update !! k) as [v|] eqn:Hv; [|done]. f_equal.
    destruct v as [| | | | | |u|]; try done. cbn [merged_value].
    f_equal. by eapply Hsub.
  - intros base. apply map_eq. intros k. rewrite !deep_merge_lookup.
    destruct (update !! k) as [v|] eqn:Hv; [|done]. f_equal.
    destruct v as [| | | | | |u|];
      try (by rewrite !merged_value_not_dict).
    destruct (Hsub k u Hv) as [Hidem Habs].
    destruct (base !! k) as [[| | | | | |b|]|]; cbn [merged_value];
      f_equal; try exact Hidem. apply Habs.
Qed.

(** X9. Merging a tree into itself gives the tree, and merging the same
    update a second time changes nothing. *)
Theorem deep_merge_idempotent (base update : gmap string pyval) :
  deep_merge update update = update
  /\ deep_merge (deep_merge base update) update = deep_merge base update.
Proof.
  destruct (deep_merge_absorb_depth (depth (VDict update)) update) as [H1 H2]; [done|].
  split; [exact H1|apply H2].
Qed.

(** Where the update holds mappings only, the base value stays. *)
Lemma deep_merge_base_path p : forall base update v,
  p <> [] ->
  lookup_path p (VDict base) = Some v ->
  (forall q v', q `prefix_of` p -> q <> [] ->
     lookup_path q (VDict update) = Some v' ->
     isinstance_dict v' = true /\ q <> p) ->
  lookup_path p (VDict (deep_merge base update)) = Some v.
Proof.
  induction p as [|k p IH]; intros base update v Hne Hv Hsilent; [done|].
  cbn [lookup_path] in *. rewrite deep_merge_lookup.
  destruct (base !! k) as [bv|] eqn:Hb; [|done].
  destruct (update !! k) as [uv|] eqn:Hu; [|done].
  destruct (Hsilent [k] uv) as [Hdict Hkp].
  { by apply (prefix_cons k [] p), prefix_nil. }
  { done. }
  { cbn [lookup_path]. by rewrite Hu. }
  destruct uv as [| | | | | |u|]; try done.
  destruct p as [|k' p']; [done|].
  destruct bv as [| | | | | |b|]; try done.
  cbn [merged_value]. apply IH; [done|done|].
  intros q v' Hq Hqne Hlook.
  destruct (Hsilent (k :: q) v') as [Hd Hneq].
  { by apply prefix_cons. }
  { done. }
  { cbn [lookup_path]. by rewrite Hu. }
  split; [done|congruence].
Qed.

(** X10. A value of [base] at a path survives the merge when the update
    holds only mappings along the path and nothing at the path itself: an
    update that omits a nested key leaves the base value intact. *)
Theorem deep_merge_keeps_base_path p : forall base update v,
  p <> [] ->
  lookup_path p (VDict base) = Some v ->
  (forall q v', q `prefix_of` p -> q <> [] ->
     lookup_path q (VDict update) = Some v' ->
     isinstance_dict v' = true /\ q <> p) ->
  lookup_path p (VDict (deep_merge base update)) = Some v.
Proof. exact (deep_merge_base_path p). Qed.

(** X11. The result of a call on two dicts is a newly allocated dict that
    shares its values with the arguments: at a key the update does not have
    it holds the very reference [base] holds, and at a key only the update
    has it holds the update's reference. Nothing is copied below the top
    level. *)
Theorem deep_merge_h_shares fuel (h : heap) base update eb eu h' r :
  h !! base = Some (HDict eb) ->
  h !! update = Some (HDict eu) ->
  deep_merge_h fuel h base update = Done h' r ->
  r = length h /\
  exists em,
    h' !! r = Some (HDict em)
    /\ (forall key, eu !! key = None -> em !! key = eb !! key)
    /\ (forall key value, eu !! key = Some value -> eb !! key = None ->
          em !! key = Some value).
Proof.
  intros Hb Hu. destruct fuel as [|fuel]; [done|].
  rewrite deep_merge_h_S. unfold copy, alloc. rewrite Hb.
  rewrite (lookup_app_l_Some _ _ _ _ Hu).
  set (merged := length h). set (h1 := h ++ [HDict eb]).
  pose (Inv := fun (acc : result) (m : gmap string nat) =>
    match acc with
    | Done hc r0 =>
        r0 = merged /\
        exists em,
          hc !! merged = Some (HDict em)
          /\ (forall key, m !! key = None -> em !! key = eb !! key)
          /\ (forall key value, m !! key = Some value -> eb !! key = None ->
                em !! key = Some value)
    | _ => True
    end).
  assert (Hfold : Inv (map_fold (merge_step_h (deep_merge_h fuel) merged)
                         (Done h1 merged) eu) eu).
  { apply (map_fold_weak_ind Inv).
    - split; [done|]. exists eb. split_and!; [apply lookup_alloc|done|].
      intros key value. by rewrite lookup_empty.
    - intros i x m acc Hi Hacc. destruct acc as [hc r0| |]; [|done|done].
      destruct Hacc as (-> & em & Hm & Hkeep & Hnew).
      assert (Hstore : forall hc' rl,
                hc' !! merged = Some (HDict em) ->
                (eb !! i = None -> rl = x) ->
                Inv (match setitem hc' merged i rl with
                     | Some h'' => Done h'' merged
                     | None => Fault hc'
                     end) (<[i := x]> m)).
      { intros hc' rl Hm' Hrl. rewrite (setitem_Some _ _ _ _ _ Hm').
        split; [done|]. exists (<[i := rl]> em). split_and!.
        - apply list_lookup_insert_eq. by eapply lookup_lt_Some.
        - intros key [Hk Hne]%lookup_insert_None.
          rewrite lookup_insert_ne by done. by apply Hkeep.
        - intros key value Hk Hnone. destruct (decide (i = key)) as [<-|Hne].
          + rewrite lookup_insert_eq in Hk. injection Hk as <-.
            rewrite lookup_insert_eq. f_equal. by apply Hrl.
          + rewrite lookup_insert_ne in Hk by done.
            rewrite lookup_insert_ne by done. by apply Hnew. }
      unfold merge_step_h. rewrite (getitem_Some _ _ _ _ Hm), (Hkeep i Hi).
      destruct (eb !! i) as [b|] eqn:Hbi; [|by apply Hstore].
      destruct (is_hdict hc b && is_hdict hc x); [|by apply Hstore].
      pose proof (deep_merge_h_frame fuel hc b x) as Hframe.
      destruct (deep_merge_h fuel hc b x) as [h'' r'| |]; [|done|done].
      apply Hstore; [|done]. by eapply heap_incl_lookup. }
  intros Hrun. rewrite Hrun in Hfold.
  destruct Hfold as (-> & em & Hm & Hkeep & Hnew). split; [done|]. by exists em.
Qed.

(** X1. Whatever the arguments are and however the call ends, every object
    of the store it started in is still there, unchanged. *)
Theorem deep_merge_h_never_mutates fuel (h : heap) base update :
  match deep_merge_h fuel h base update with
  | Done h' _ | Fault h' => forall l o, h !! l = Some o -> h' !! l = Some o
  | OutOfFuel => True
  end.
Proof.
  pose proof (deep_merge_h_frame fuel h base update) as Hframe.
  destruct (deep_merge_h fuel h base update); [| |done];
    intros l o Hl; by eapply heap_incl_lookup.
Qed.

(** *** More on the schema *)

Lemma combine_Ok {A B C} (f : A -> B -> C) oa ob c :
  combine f oa ob = Ok c -> exists a b, oa = Ok a /\ ob = Ok b /\ c = f a b.
Proof. destruct oa, ob; try done. intros [= <-]. eauto. Qed.

Lemma outcome_map_Ok {A B} (f : A -> B) o b :
  outcome_map f o = Ok b -> exists a, o = Ok a /\ b = f a.
Proof. destruct o; try done. intros [= <-]. eauto. Qed.

Section BindingFacts.
Context (lax : prim -> pyval -> option pyval).

Lemma validate_model cls extra fields kwargs :
  validate lax (TModel cls extra fields) (VDict kwargs) =
    outcome_map (VObj cls)
      (bind_fields (validate lax) (extras_of extra (fname <$> fields) kwargs)
         kwargs fields).
Proof. reflexivity. Qed.

Lemma bind_fields_Ok check extras kwargs fs attrs :
  bind_fields check extras kwargs fs = Ok attrs ->
  (forall f, f ∈ fs -> exists x, bind_field (check (ftype f)) f kwargs = Ok x)
  /\ (forall f, f ∈ fs -> is_Some (attrs !! fname f))
  /\ (forall k, k ∉ fname <$> fs -> attrs !! k = extras !! k).
Proof.
  revert attrs. induction fs as [|f fs IH]; intros attrs; cbn [bind_fields].
  - intros [= <-]. split_and!; [by intros f ?%elem_of_nil..|done].
  - intros (x & rest & Hx & Hrest & ->)%combine_Ok.
    destruct (IH rest Hrest) as (IH1 & IH2 & IH3). split_and!.
    + intros g [->|Hg]%elem_of_cons; eauto.
    + intros g [->|Hg]%elem_of_cons.
      * rewrite lookup_insert_eq. eauto.
      * destruct (decide (fname f = fname g)) as [->|Hne].
        -- rewrite lookup_insert_eq. eauto.
        -- rewrite lookup_insert_ne by done. by apply IH2.
    + intros k [Hk Hks]%not_elem_of_cons.
      rewrite lookup_insert_ne by done. by apply IH3.
Qed.

Lemma bind_fields_no_arguments check extras fs :
  bind_fields check extras ∅ fs =
    if forallb (fun f => bool_decide (is_Some (fdefault f))) fs
    then Ok (foldr (fun f attrs =>
                      match fdefault f with
                      | Some d => <[fname f := d]> attrs
                      | None => attrs
                      end) extras fs)
    else ValidationError.
Proof.
  induction fs as [|f fs IH]; [done|]. cbn [bind_fields forallb foldr].
  rewrite IH. unfold bind_field. rewrite lookup_empty.
  destruct (fdefault f) as [d|]; cbn [andb].
  - rewrite bool_decide_true by eauto. cbn [andb].
    by destruct (forallb _ fs).
  - rewrite bool_decide_false by (by intros [? ?]). cbn [andb].
    by destruct (forallb _ fs).
Qed.

(** Binding no keyword at all: the declared defaults when every field has
    one, a validation error otherwise. *)
Lemma construct_no_arguments cls extra fields :
  (Forall (fun f => is_Some (fdefault f)) fields ->
   construct lax (TModel cls extra fields) ∅
   = Ok (default_instance (TModel cls extra fields)))
  /\ (Exists (fun f => fdefault f = None) fields ->
      construct lax (TModel cls extra fields) ∅ = ValidationError).
Proof.
  unfold construct. rewrite validate_model, bind_fields_no_arguments.
  assert (Hextras : extras_of extra (fname <$> fields) ∅ = ∅).
  { destruct extra; [apply map_filter_empty|done]. }
  rewrite Hextras. split.
  - intros Hall.
    assert (forallb (fun f => bool_decide (is_Some (fdefault f))) fields = true) as ->.
    { apply forallb_forall. intros f Hf%list_elem_of_In.
      apply bool_decide_eq_true. by eapply Forall_forall in Hall. }
    reflexivity.
  - intros (f & Hf & Hnone)%Exists_exists.
    assert (forallb (fun f => bool_decide (is_Some (fdefault f))) fields = false) as ->.
    { apply not_true_is_false. intros Hall.
      eapply forallb_forall in Hall; [|by apply list_elem_of_In].
      apply bool_decide_eq_true in Hall as [d Hd]. congruence. }
    reflexivity.
Qed.

Lemma not_Ok_failed {A} (o : outcome A) : (forall a, o <> Ok a) -> failed o.
Proof. destruct o as [a| |]; [intros H; by destruct (H a)|by left|by right]. Qed.

Lemma BaseModel_classes_inv (P : ty -> Prop) t :
  t ∈ BaseModel_classes ->
  (forall cls extra fields, TModel cls extra fields ∈ BaseModel_classes ->
     P (TModel cls extra fields)) ->
  P t.
Proof.
  intros Ht HP. pose proof Ht as Ht'. unfold BaseModel_classes in Ht'.
  repeat (apply elem_of_cons in Ht' as [->|Ht']; [by apply HP|]).
  by apply elem_of_nil in Ht'.
Qed.

(** X19. A [BaseModel] class of the module all of whose fields have defaults
    can be called without arguments and gives the instance holding those
    defaults; one with a required field cannot: the call is a validation
    error. *)
Theorem construct_without_arguments t :
  t ∈ BaseModel_classes ->
  exists cls extra fields,
    t = TModel cls extra fields
    /\ (Forall (fun f => is_Some (fdefault f)) fields ->
        construct lax t ∅ = Ok (default_instance t))
    /\ (Exists (fun f => fdefault f = None) fields ->
        construct lax t ∅ = ValidationError).
Proof.
  intros Ht. pattern t. eapply BaseModel_classes_inv; [exact Ht|].
  intros cls extra fields _. exists cls, extra, fields. split; [done|].
  apply construct_no_arguments.
Qed.

(** X25. Of the [BaseModel] classes of the module, all but three can be
    called without arguments and give their declared defaults;
    [AzureSettings], [TemporalSettings] and [MCPRootSettings] have required
    fields, and calling them without arguments is a validation error. *)
Theorem module_classes_without_arguments :
  Forall (fun t => construct lax t ∅ = Ok (default_instance t))
    [MCPServerAuthSettings; MCPServerSettings; MCPSettings; AnthropicSettings;
     BedrockSettings; CohereSettings; OpenAISettings; UsageTelemetrySettings;
     OpenTelemetrySettings; LogPathSettings; LoggerSettings]
  /\ Forall (fun t => construct lax t ∅ = ValidationError)
       [AzureSettings; TemporalSettings; MCPRootSettings].
Proof.
  split; repeat (constructor; [vm_compute; reflexivity|]); constructor.
Qed.

(** X20. A construction whose keywords leave out a required field fails,
    whatever else the keywords hold. *)
Theorem construct_requires_fields cls extra fields kwargs f :
  f ∈ fields -> fdefault f = None -> kwargs !! fname f = None ->
  failed (construct lax (TModel cls extra fields) kwargs).
Proof.
  intros Hf Hreq Hmiss. apply not_Ok_failed. intros v.
  unfold construct. rewrite validate_model.
  intros (attrs & Hbind & _)%outcome_map_Ok.
  apply bind_fields_Ok in Hbind as (Hfields & _ & _).
  destruct (Hfields f Hf) as [x Hx]. unfold bind_field in Hx.
  by rewrite Hmiss, Hreq in Hx.
Qed.



Lemma validate_all_Ok (f : pyval -> outcome pyval) l l' :
  validate_all f l = Ok l' ->
  forall i x, l !! i = Some x -> exists y, f x = Ok y /\ l' !! i = Some y.
Proof.
  revert l'. induction l as [|a l IH]; intros l' Hl i x Hi; [done|].
  cbn [validate_all foldr] in Hl.
  apply combine_Ok in Hl as (y & ys & Hy & Hys & ->).
  destruct i as [|i]; [injection Hi as <-; eauto|].
  by apply (IH ys Hys).
Qed.

Lemma validate_values_Ok (f : pyval -> outcome pyval) d :
  forall d', validate_values f d = Ok d' ->
  forall k x, d !! k = Some x -> exists y, f x = Ok y /\ d' !! k = Some y.
Proof.
  unfold validate_values.
  apply (map_fold_weak_ind (fun acc m =>
    forall d', acc = Ok d' ->
    forall k x, m !! k = Some x -> exists y, f x = Ok y /\ d' !! k = Some y)).
  - intros d' _ k x. by rewrite lookup_empty.
  - intros i x m acc Hi IH d' (y & rest & Hy & -> & ->)%combine_Ok k x'.
    destruct (decide (i = k)) as [->|Hne].
    + rewrite !lookup_insert_eq. intros [= <-]. eauto.
    + rewrite !lookup_insert_ne by done. by apply IH.
Qed.

(** A field given in the keywords of a successful construction passed its
    annotation and its validator. *)
Lemma construct_field_Ok cls extra fields kwargs v f x :
  construct lax (TModel cls extra fields) kwargs = Ok v ->
  f ∈ fields -> kwargs !! fname f = Some x ->
  exists y,
    validate lax (ftype f) x = Ok y
    /\ forall after, fafter f = Some after -> exists z, after y = Ok z.
Proof.
  unfold construct. rewrite validate_model.
  intros (attrs & Hbind & ->)%outcome_map_Ok Hf Hx.
  apply bind_fields_Ok in Hbind as (Hfields & _ & _).
  destruct (Hfields f Hf) as [z Hz]. unfold bind_field in Hz. rewrite Hx in Hz.
  destruct (fafter f) as [after|].
  - destruct (validate lax (ftype f) x) as [y| |] eqn:Hy; try done.
    exists y. split; [done|]. intros ? [= <-]. eauto.
  - exists z. split; [done|]. done.
Qed.

Lemma Settings_bad_root_uri_not_Ok kwargs mcp servers name server roots i root uri :
  kwargs !! "mcp" = Some (VDict mcp) ->
  mcp !! "servers" = Some (VDict servers) ->
  servers !! name = Some (VDict server) ->
  server !! "roots" = Some (VList roots) ->
  roots !! i = Some (VDict root) ->
  root !! "uri" = Some (VStr uri) ->
  startswith uri "file://" = false ->
  forall v, construct lax Settings_model kwargs <> Ok v.
Proof.
  intros Hmcp Hservers Hserver Hroots Hroot Huri Hbad v Hok.
  (* Settings.mcp *)
  destruct (construct_field_Ok "Settings" ExtraAllow Settings_fields kwargs v
              (defaulted "mcp" (TOptional MCPSettings) (default_instance MCPSettings))
              (VDict mcp) Hok) as (y1 & H1 & _); 
    [repeat (apply elem_of_cons; first [by left|right])|exact Hmcp|].
  (* MCPSettings.servers *)
  destruct (construct_field_Ok "MCPSettings" ExtraAllow
              [defaulted "servers" (TDict MCPServerSettings) (VDict ∅)] mcp y1
              (defaulted "servers" (TDict MCPServerSettings) (VDict ∅))
              (VDict servers) H1) as (y2 & H2 & _); 
    [repeat (apply elem_of_cons; first [by left|right])|exact Hservers|].
  cbn [ftype defaulted validate] in H2.
  apply outcome_map_Ok in H2 as (servers' & H2 & _).
  destruct (validate_values_Ok _ _ _ H2 name _ Hserver) as (y3 & H3 & _).
  (* MCPServerSettings.roots *)
  pose proof H3 as H3'. unfold MCPServerSettings in H3'.
  destruct (construct_field_Ok _ _ _ server y3
              (optional "roots" (TList MCPRootSettings))
              (VList roots) H3') as (y4 & H4 & _); 
    [repeat (apply elem_of_cons; first [by left|right])|exact Hroots|].
  cbn [ftype optional validate] in H4.
  apply outcome_map_Ok in H4 as (roots' & H4 & _).
  destruct (validate_all_Ok _ _ _ H4 i _ Hroot) as (y5 & H5 & _).
  (* MCPRootSettings.uri *)
  pose proof H5 as H5'. unfold MCPRootSettings in H5'.
  destruct (construct_field_Ok _ _ _ root y5
              (Field "uri" str None (Some validate_uri))
              (VStr uri) H5') as (y6 & H6 & Hafter); 
    [repeat (apply elem_of_cons; first [by left|right])|exact Huri|].
  cbn [ftype str validate validate_prim] in H6. injection H6 as <-.
  destruct (Hafter validate_uri eq_refl) as [z Hz].
  unfold validate_uri in Hz. by rewrite Hbad in Hz.
Qed.

(** X24. A field annotated with a list of literal strings accepts one of
    those strings and nothing else: a construction that succeeds was given
    one of them. *)
Theorem construct_literal_field cls extra fields kwargs v f choices x :
  construct lax (TModel cls extra fields) kwargs = Ok v ->
  f ∈ fields -> ftype f = TLiteral choices -> kwargs !! fname f = Some x ->
  exists s, x = VStr s /\ s ∈ choices.
Proof.
  intros Hok Hf Hty Hx.
  destruct (construct_field_Ok _ _ _ _ _ f x Hok Hf Hx) as (y & Hy & _).
  rewrite Hty in Hy. cbn [validate] in Hy.
  destruct x as [| | | |s| | |]; try done.
  case_bool_decide; [|done]. by exists s.
Qed.

End BindingFacts.

(** *** get_settings *)

(** The secrets value wins at every path where the secrets tree holds a
    value that is not a mapping. *)
Lemma deep_merge_path_precedence p : forall cfg sec v,
  lookup_path p (VDict sec) = Some v ->
  isinstance_dict v = false ->
  lookup_path p (VDict (deep_merge cfg sec)) = Some v.
Proof.
  induction p as [|k p IH]; intros cfg sec v Hv Hnd.
  { injection Hv as <-. done. }
  cbn [lookup_path] in *. rewrite deep_merge_lookup.
  destruct (sec !! k) as [sv|]; [|done].
  unfold merged_value.
  destruct (cfg !! k) as [[| | | | | |b|]|]; try exact Hv.
  destruct sv as [| | | | | |u|]; try exact Hv.
  destruct p as [|k' p']; [by injection Hv as <-|].
  by apply IH.
Qed.

(** The loop over the later sources keeps every value of the state it starts
    from that is not a mapping. *)
Lemma sources_keep_state (sources : list (gmap string pyval)) : forall state p v,
  lookup_path p (VDict state) = Some v ->
  isinstance_dict v = false ->
  lookup_path p
    (VDict (foldl (fun state source => deep_merge source state) state sources))
  = Some v.
Proof.
  induction sources as [|source sources IH]; intros state p v Hv Hnd; [done|].
  cbn [foldl]. apply IH; [|done]. by apply deep_merge_path_precedence.
Qed.

Lemma deep_merge_under_nothing (state : gmap string pyval) :
  deep_merge ∅ state = state.
Proof.
  apply map_eq. intros k. rewrite deep_merge_lookup, lookup_empty.
  by destruct (state !! k).
Qed.

(** Sources that are all empty leave the state as the keywords give it. *)
Lemma sources_empty (sources : list (gmap string pyval)) state :
  Forall (fun source => source = ∅) sources ->
  foldl (fun state source => deep_merge source state) state sources = state.
Proof.
  induction 1 as [|source sources -> _ IH]; [done|].
  cbn [foldl]. by rewrite deep_merge_under_nothing.
Qed.

(** A value found below the top level sits in a mapping. *)
Lemma lookup_path_cons k p (d : gmap string pyval) v :
  lookup_path (k :: p) (VDict d) = Some v ->
  exists x, d !! k = Some x /\ lookup_path p x = Some v.
Proof. cbn [lookup_path]. destruct (d !! k) as [x|]; [eauto|done]. Qed.

Lemma lookup_path_dict k p x v :
  lookup_path (k :: p) x = Some v ->
  exists d y, x = VDict d /\ d !! k = Some y /\ lookup_path p y = Some v.
Proof.
  destruct x as [| | | | | |d|]; try done.
  intros (y & Hy & Hv)%lookup_path_cons. eauto.
Qed.

Section StoredFacts.
Context (lax : prim -> pyval -> option pyval).

(** A field of a successful binding holds what its keyword was validated
    to, when no two fields share a name. *)
Lemma bind_fields_stored check extras kwargs fs attrs f x :
  NoDup (fname <$> fs) -> f ∈ fs ->
  bind_fields check extras kwargs fs = Ok attrs ->
  bind_field (check (ftype f)) f kwargs = Ok x ->
  attrs !! fname f = Some x.
Proof.
  revert attrs. induction fs as [|g fs IH]; intros attrs Hnd Hf;
    [by apply elem_of_nil in Hf|].
  cbn [bind_fields]. intros (y & rest & Hy & Hrest & ->)%combine_Ok Hx.
  rewrite fmap_cons in Hnd. apply NoDup_cons in Hnd as [Hg Hnd].
  apply elem_of_cons in Hf as [->|Hf].
  - rewrite lookup_insert_eq. congruence.
  - rewrite lookup_insert_ne; [by apply IH|].
    intros Heq. apply Hg. rewrite Heq. by apply list_elem_of_fmap_2.
Qed.

Lemma construct_stored cls extra fields kwargs v f x :
  construct lax (TModel cls extra fields) kwargs = Ok v ->
  NoDup (fname <$> fields) -> f ∈ fields -> fafter f = None ->
  kwargs !! fname f = Some x ->
  exists y, validate lax (ftype f) x = Ok y /\ getattr v (fname f) = Some y.
Proof.
  unfold construct. rewrite validate_model.
  intros (attrs & Hbind & ->)%outcome_map_Ok Hnd Hf Hafter Hx.
  pose proof Hbind as (Hfields & _ & _)%bind_fields_Ok.
  destruct (Hfields f Hf) as [y Hy]. exists y.
  pose proof (bind_fields_stored _ _ _ _ _ f y Hnd Hf Hbind Hy) as Hstored.
  unfold bind_field in Hy. rewrite Hx, Hafter in Hy. done.
Qed.

Lemma Settings_fields_NoDup : NoDup (fname <$> Settings_fields).
Proof. apply (bool_decide_unpack _). vm_compute. exact I. Qed.

(** The string fields of the [openai] section of a state reach the object
    as they are. *)
Lemma Settings_model_openai state v name x :
  construct lax Settings_model state = Ok v ->
  name = "api_key" \/ name = "base_url" ->
  lookup_path ["openai"; name] (VDict state) = Some (VStr x) ->
  (getattr v "openai" ≫= fun openai => getattr openai name) = Some (VStr x).
Proof.
  intros Hv Hname (o' & Ho & (o & y & -> & Hy & [= ->])%lookup_path_dict)%lookup_path_cons.
  destruct (construct_stored "Settings" ExtraAllow Settings_fields state v
              (optional "openai" OpenAISettings) (VDict o) Hv)
    as (openai & Hopenai & Hget);
    [apply Settings_fields_NoDup
    |repeat (apply elem_of_cons; first [by left|right])|done|exact Ho|].
  cbn [fname optional] in Hget. rewrite Hget. cbn [mbind option_bind].
  cbn [ftype optional validate] in Hopenai.
  change (construct lax OpenAISettings o = Ok openai) in Hopenai.
  unfold OpenAISettings in Hopenai.
  destruct (construct_stored _ _ _ o openai (optional name str) (VStr x) Hopenai)
    as (z & Hz & Hgetz);
    [apply (bool_decide_unpack _); vm_compute; exact I
    |destruct Hname as [-> | ->];
       repeat (apply elem_of_cons; first [by left|right])
    |done|exact Hy|].
  cbn [ftype optional str validate validate_prim] in Hz. injection Hz as <-.
  exact Hgetz.
Qed.

(** The [command] of a server of a state reaches the object as it is. *)
Lemma Settings_model_server_command state v name x :
  construct lax Settings_model state = Ok v ->
  lookup_path ["mcp"; "servers"; name; "command"] (VDict state) = Some (VStr x) ->
  (mcp ← getattr v "mcp";
   servers ← getattr mcp "servers";
   server ← subscript servers name;
   getattr server "command") = Some (VStr x).
Proof.
  intros Hv (m' & Hm & (m & ss' & -> & Hss
                        & (ss & s' & -> & Hs
                           & (s & y & -> & Hy & [= ->])%lookup_path_dict
                          )%lookup_path_dict)%lookup_path_dict)%lookup_path_cons.
  destruct (construct_stored "Settings" ExtraAllow Settings_fields state v
              (defaulted "mcp" (TOptional MCPSettings) (default_instance MCPSettings))
              (VDict m) Hv)
    as (mcp & Hmcp & Hget1);
    [apply Settings_fields_NoDup
    |repeat (apply elem_of_cons; first [by left|right])|done|exact Hm|].
  cbn [fname defaulted] in Hget1. rewrite Hget1. cbn [mbind option_bind].
  cbn [ftype defaulted validate] in Hmcp.
  change (construct lax MCPSettings m = Ok mcp) in Hmcp. unfold MCPSettings in Hmcp.
  destruct (construct_stored _ _ _ m mcp
              (defaulted "servers" (TDict MCPServerSettings) (VDict ∅))
              (VDict ss) Hmcp)
    as (servers & Hservers & Hget2);
    [apply (bool_decide_unpack _); vm_compute; exact I
    |repeat (apply elem_of_cons; first [by left|right])|done|exact Hss|].
  cbn [fname defaulted] in Hget2. rewrite Hget2. cbn [mbind option_bind].
  cbn [ftype defaulted validate] in Hservers.
  apply outcome_map_Ok in Hservers as (servers' & Hservers & ->).
  destruct (validate_values_Ok _ _ _ Hservers name _ Hs) as (server & Hserver & Hget3).
  cbn [subscript]. rewrite Hget3. cbn [mbind option_bind].
  change (construct lax MCPServerSettings s = Ok server) in Hserver.
  unfold MCPServerSettings in Hserver.
  destruct (construct_stored _ _ _ s server (optional "command" str) (VStr x) Hserver)
    as (z & Hz & Hgetz);
    [apply (bool_decide_unpack _); vm_compute; exact I
    |repeat (apply elem_of_cons; first [by left|right])|done|exact Hy|].
  cbn [ftype optional str validate validate_prim] in Hz. injection Hz as <-.
  exact Hgetz.
Qed.

End StoredFacts.

Section ResolverFacts.
Context (lax : prim -> pyval -> option pyval).
Context (yaml_safe_load : string -> option pyval).
Context (Path : string -> list string).
Context (init_params : list string).
Context (settings_sources :
  settings_config -> world -> gmap string pyval -> outcome (list (gmap string pyval))).

Lemma bind_run {A B} (m : M A) (k : A -> M B) st :
  (m ≫= k) st =
    match m st with
    | (Ok a, st1, t1) => let '(r, st2, t2) := k a st1 in (r, st2, t1 ++ t2)
    | (ValidationError, st1, t1) => (ValidationError, st1, t1)
    | (Raised, st1, t1) => (Raised, st1, t1)
    end.
Proof. reflexivity. Qed.

Lemma bind_Ok {A B} (m : M A) (k : A -> M B) st b st' tr :
  (m ≫= k) st = (Ok b, st', tr) ->
  exists a st1 t1 t2,
    m st = (Ok a, st1, t1) /\ k a st1 = (Ok b, st', t2) /\ tr = t1 ++ t2.
Proof.
  rewrite bind_run. destruct (m st) as [[[a| |] st1] t1]; [|done|done].
  destruct (k a st1) as [[r st2] t2] eqn:Hk. intros [= -> -> <-].
  by exists a, st1, t1, t2.
Qed.

Lemma default_construct :
  construct lax Settings_model ∅ = Ok (default_instance Settings_model).
Proof. vm_compute. reflexivity. Qed.

(** A keyword whose name has no leading underscore is a value of the call. *)
Lemma init_kwargs_lookup (kwargs : gmap string pyval) k :
  String.prefix "_" k = false ->
  init_kwargs init_params kwargs !! k = kwargs !! k.
Proof.
  intros Hk. unfold init_kwargs.
  assert (Hnot : k ∉ String.append "_" <$> init_params).
  { intros (n & -> & _)%list_elem_of_fmap_1. by destruct n. }
  destruct (kwargs !! k) as [x|] eqn:Hx.
  - by apply map_lookup_filter_Some.
  - apply map_lookup_filter_None. by left.
Qed.

Lemma init_kwargs_id (kwargs : gmap string pyval) :
  map_Forall (fun k _ => String.prefix "_" k = false) kwargs ->
  init_kwargs init_params kwargs = kwargs.
Proof.
  intros Hall. apply map_eq. intros k.
  destruct (kwargs !! k) as [x|] eqn:Hx.
  - rewrite init_kwargs_lookup; [done|]. by eapply Hall.
  - apply map_lookup_filter_None. by left.
Qed.

Lemma init_kwargs_empty : init_kwargs init_params ∅ = ∅.
Proof. apply map_filter_empty. Qed.

(** A call of [Settings] that returns validated a state in which every
    keyword value that is not a mapping sits where the keywords have it:
    the keywords take priority over the later sources. *)
Lemma Settings_state w kwargs v :
  Settings lax init_params settings_sources w kwargs = Ok v ->
  exists state,
    construct lax Settings_model state = Ok v
    /\ forall k p x,
         String.prefix "_" k = false ->
         lookup_path (k :: p) (VDict kwargs) = Some x ->
         isinstance_dict x = false ->
         lookup_path (k :: p) (VDict state) = Some x.
Proof.
  unfold Settings, settings_build_values.
  destruct (settings_sources Settings_model_config w kwargs) as [sources| |];
    [|done|done].
  cbn [outcome_map outcome_bind]. intros Hv. eexists. split; [exact Hv|].
  intros k p x Hk Hx Hnd. apply sources_keep_state; [|done].
  cbn [lookup_path] in *. by rewrite init_kwargs_lookup.
Qed.

(** With empty sources the state is the keywords. *)
Lemma empty_sources_bind_nothing w kwargs sources :
  settings_sources Settings_model_config w kwargs = Ok sources ->
  Forall (fun source => source = ∅) sources ->
  environment_binds_nothing init_params settings_sources w kwargs.
Proof.
  intros Hsources Hempty.
  unfold environment_binds_nothing, settings_build_values. rewrite Hsources.
  cbn [outcome_map]. by rewrite sources_empty.
Qed.

Lemma Settings_binds_nothing w kwargs :
  environment_binds_nothing init_params settings_sources w kwargs ->
  Settings lax init_params settings_sources w kwargs
  = construct lax Settings_model (init_kwargs init_params kwargs).
Proof. intros Hstate. unfold Settings. by rewrite Hstate. Qed.

(** The three statements that end a first resolution:
    construct, store in the slot, return. *)
Lemma init_store_run w kwargs st :
  (s ← Settings_init lax init_params settings_sources w (VDict kwargs);
   _ ← write_global s; mret s) st =
    match Settings lax init_params settings_sources w kwargs with
    | Ok v =>
        (Ok (Instance_ (next_id st) v),
         PState (Some (Instance_ (next_id st) v)) (S (next_id st)),
         [EvSettingsInit])
    | ValidationError => (ValidationError, st, [EvSettingsInit])
    | Raised => (Raised, st, [EvSettingsInit])
    end.
Proof.
  rewrite bind_run. unfold Settings_init. rewrite bind_run.
  unfold emit. cbn iota. rewrite bind_run. unfold lift.
  destruct (Settings lax init_params settings_sources w kwargs); reflexivity.
Qed.

Lemma init_store_sets w (merged_settings : pyval) st s st' tr :
  (s ← Settings_init lax init_params settings_sources w merged_settings;
   _ ← write_global s; mret s) st = (Ok s, st', tr) ->
  _settings st' = Some s.
Proof.
  destruct merged_settings as [| | | | | |kwargs|];
    try (rewrite bind_run; unfold Settings_init; rewrite bind_run; discriminate).
  rewrite init_store_run.
  destruct (Settings lax init_params settings_sources w kwargs); [|done|done].
  by intros [= <- <- <-].
Qed.

Lemma get_settings_cached w config_path st s :
  _settings st = Some s ->
  get_settings lax yaml_safe_load Path
    init_params settings_sources w config_path st = (Ok s, st, []).
Proof.
  intros Hc. unfold get_settings. rewrite bind_run. unfold read_global.
  rewrite Hc. reflexivity.
Qed.

Lemma get_settings_sets w config_path st s st' tr :
  get_settings lax yaml_safe_load Path
    init_params settings_sources w config_path st = (Ok s, st', tr) ->
  _settings st' = Some s.
Proof.
  unfold get_settings. intros (cached & st1 & t1 & t2 & Hread & Hrest & _)%bind_Ok.
  unfold read_global in Hread. injection Hread as <- <- <-.
  destruct (_settings st) as [s0|] eqn:Hc.
  { injection Hrest as <- <- <-. done. }
  apply bind_Ok in Hrest as (cf & st2 & t3 & t4 & _ & Hrest & _).
  destruct cf as [cf|]; [|by eapply init_store_sets].
  apply bind_Ok in Hrest as (found & st3 & t5 & t6 & _ & Hrest & _).
  destruct found; [|by eapply init_store_sets].
  apply bind_Ok in Hrest as (text & st4 & t7 & t8 & _ & Hrest & _).
  apply bind_Ok in Hrest as (y & st5 & t9 & t10 & _ & Hrest & _).
  apply bind_Ok in Hrest as (m & st6 & t11 & t12 & _ & Hrest & _).
  by eapply init_store_sets.
Qed.

Lemma run_calls_cached calls st s :
  _settings st = Some s ->
  run_calls lax yaml_safe_load Path
    init_params settings_sources calls st = ((fun _ => (Ok s, [])) <$> calls, st).
Proof.
  intros Hc. induction calls as [|[w p] calls IH]; [done|].
  cbn [run_calls]. rewrite (get_settings_cached w p st s Hc), IH. reflexivity.
Qed.

(** C3. Once a call has returned a settings object [s], the slot holds [s],
    and every later call, whatever its surroundings and its argument,
    returns the same object [s] (same identity), records no event at all (no
    locator call, no existence test, no read, no merge, no construction) and
    leaves the process state as it is: the slot stays set through any
    sequence of calls. *)
Theorem get_settings_memoises w config_path st s st1 tr :
  get_settings lax yaml_safe_load Path
    init_params settings_sources w config_path st = (Ok s, st1, tr) ->
  _settings st1 = Some s
  /\ (forall w' config_path',
        get_settings lax yaml_safe_load Path
          init_params settings_sources w' config_path' st1 = (Ok s, st1, []))
  /\ (forall calls,
        run_calls lax yaml_safe_load Path
          init_params settings_sources calls st1 = ((fun _ => (Ok s, [])) <$> calls, st1)).
Proof.
  intros Hs%get_settings_sets. split_and!; [done| |].
  - intros w' p'. by apply get_settings_cached.
  - intros calls. by apply run_calls_cached.
Qed.

Lemma config_file_of_is w config_path cf st :
  config_file_is Path w config_path cf ->
  exists tr,
    config_file_of Path w config_path st = (Ok (Some cf), st, tr)
    /\ (tr = [] \/ tr = [EvFindConfig]).
Proof.
  intros [(s & -> & Hs & ->)|[[-> | ->] Hfind]]; unfold config_file_of.
  - apply String.eqb_neq in Hs. rewrite Hs. exists []. eauto.
  - rewrite Hfind. exists [EvFindConfig]. eauto.
  - rewrite Hfind. exists [EvFindConfig]. eauto.
Qed.





(** A first resolution with a config file and a secrets file, both holding
    mappings: the steps taken and the result. *)
Lemma get_settings_with_secrets w config_path st cf text y cfg sf text2 y2 sec :
  _settings st = None ->
  config_file_is Path w config_path cf ->
  fs w cf = Some (File text) ->
  yaml_safe_load text = Some y -> or_empty_dict y = VDict cfg ->
  find_secrets w = Some sf ->
  fs w sf = Some (File text2) ->
  yaml_safe_load text2 = Some y2 -> or_empty_dict y2 = VDict sec ->
  exists tr0,
    get_settings lax yaml_safe_load Path init_params settings_sources w config_path st =
      (outcome_map (Instance_ (next_id st))
         (Settings lax init_params settings_sources w (deep_merge cfg sec)),
       stored st (Settings lax init_params settings_sources w (deep_merge cfg sec)),
       tr0 ++ [EvExists cf; EvOpen cf; EvYamlLoad text; EvFindSecrets;
               EvExists sf; EvOpen sf; EvYamlLoad text2; EvDeepMerge;
               EvSettingsInit]).
Proof.
  intros Hc Hcf Hfile Hy Hcfg Hsf Hfile2 Hy2 Hsec.
  destruct (config_file_of_is w config_path cf st Hcf) as (tr0 & Hrun & _).
  exists tr0.
  unfold get_settings. rewrite bind_run. unfold read_global.
  rewrite Hc. cbn iota. rewrite bind_run, Hrun. cbn iota.
  rewrite bind_run. unfold exists_ at 1. rewrite bind_run. unfold emit.
  cbn [mret M_ret]. unfold path_exists at 1. rewrite Hfile. cbn iota.
  rewrite bind_run. unfold open_read at 1. rewrite bind_run. unfold emit.
  rewrite Hfile. cbn [mret M_ret]. cbn iota.
  rewrite bind_run. unfold load_yaml at 1. rewrite bind_run. unfold emit.
  rewrite Hy, Hcfg. cbn [mret M_ret]. cbn iota.
  rewrite bind_run. unfold load_secrets. rewrite bind_run. unfold emit.
  rewrite Hsf. cbn iota.
  rewrite bind_run. unfold exists_. rewrite bind_run. unfold emit.
  cbn [mret M_ret]. unfold path_exists. rewrite Hfile2. cbn iota.
  rewrite bind_run. unfold open_read. rewrite bind_run. unfold emit.
  rewrite Hfile2. cbn [mret M_ret]. cbn iota.
  rewrite bind_run. unfold load_yaml. rewrite bind_run. unfold emit.
  rewrite Hy2, Hsec. cbn [mret M_ret]. cbn iota.
  unfold call_deep_merge. rewrite bind_run. unfold emit. cbn [mret M_ret]. cbn iota.
  rewrite init_store_run.
  destruct (Settings lax init_params settings_sources w (deep_merge cfg sec));
    cbn [app]; rewrite ?app_nil_r; reflexivity.
Qed.

(** C5. When the config file determined exists and holds the mapping [cfg],
    and the secrets locator finds a file holding the mapping [sec], the call
    merges (the merge is in its trace) and ends as the class call on
    [deep_merge cfg sec] does, secrets as the update. In the merged tree a
    key holds what the secrets give it, merged into the config's mapping
    when both are mappings, and what the config gives it when the secrets
    have no such key; at every path where [sec] holds a value that is not a
    mapping, the merged tree holds that value; at every path where [sec] is
    silent, the value of [cfg] stays. The object returned holds the merged
    values whatever the environment sources hold, as shown for the strings
    of the [openai] section: it has the [api_key] of the secrets and keeps
    a [base_url] only the config gives. For the trees of the example
    the [api_key] is [secret-key], and the call returns when the environment
    sources bind no field. *)
Theorem get_settings_secrets_take_precedence
    w config_path st cf text y cfg sf text2 y2 sec :
  _settings st = None ->
  config_file_is Path w config_path cf ->
  fs w cf = Some (File text) ->
  yaml_safe_load text = Some y -> or_empty_dict y = VDict cfg ->
  find_secrets w = Some sf ->
  fs w sf = Some (File text2) ->
  yaml_safe_load text2 = Some y2 -> or_empty_dict y2 = VDict sec ->
  exists st' tr,
    get_settings lax yaml_safe_load Path init_params settings_sources w config_path st =
      (outcome_map (Instance_ (next_id st))
         (Settings lax init_params settings_sources w (deep_merge cfg sec)),
       st', tr)
    /\ EvDeepMerge ∈ tr
    /\ (forall k,
          deep_merge cfg sec !! k =
            match sec !! k with
            | Some (VDict u) =>
                match cfg !! k with
                | Some (VDict b) => Some (VDict (deep_merge b u))
                | _ => Some (VDict u)
                end
            | Some v => Some v
            | None => cfg !! k
            end)
    /\ (forall p v,
          lookup_path p (VDict sec) = Some v -> isinstance_dict v = false ->
          lookup_path p (VDict (deep_merge cfg sec)) = Some v)
    /\ (forall p v,
          p <> [] -> lookup_path p (VDict cfg) = Some v ->
          (forall q v', q `prefix_of` p -> q <> [] ->
             lookup_path q (VDict sec) = Some v' ->
             isinstance_dict v' = true /\ q <> p) ->
          lookup_path p (VDict (deep_merge cfg sec)) = Some v)
    /\ (forall s,
          get_settings lax yaml_safe_load Path
            init_params settings_sources w config_path st =
            (Ok s, st', tr) ->
          _settings st' = Some s
          /\ (forall x,
                lookup_path ["openai"; "api_key"] (VDict sec) = Some (VStr x) ->
                (getattr (obj_val s) "openai" ≫= fun openai => getattr openai "api_key")
                = Some (VStr x))
          /\ (forall x,
                lookup_path ["openai"; "base_url"] (VDict cfg) = Some (VStr x) ->
                (forall v', sec !! "openai" = Some v' ->
                   isinstance_dict v' = true
                   /\ lookup_path ["base_url"] v' = None) ->
                (getattr (obj_val s) "openai" ≫= fun openai => getattr openai "base_url")
                = Some (VStr x)))
    /\ (cfg = example_config -> sec = example_secrets ->
        (forall s,
           get_settings lax yaml_safe_load Path
             init_params settings_sources w config_path st =
             (Ok s, st', tr) ->
           (getattr (obj_val s) "openai" ≫= fun openai => getattr openai "api_key")
           = Some (VStr "secret-key"))
        /\ (environment_binds_nothing init_params settings_sources w
              (deep_merge cfg sec) ->
            exists s,
              get_settings lax yaml_safe_load Path
                init_params settings_sources w config_path st =
                (Ok s, st', tr))).
Proof.
  intros Hc Hcf Hfile Hy Hcfg Hsf Hfile2 Hy2 Hsec.
  destruct (get_settings_with_secrets w config_path st cf text y cfg sf text2 y2 sec)
    as (tr0 & Hrun); try done.
  assert (Hreturned : forall v name x,
            Settings lax init_params settings_sources w (deep_merge cfg sec) = Ok v ->
            name = "api_key" \/ name = "base_url" ->
            lookup_path ["openai"; name] (VDict (deep_merge cfg sec)) = Some (VStr x) ->
            (getattr v "openai" ≫= fun openai => getattr openai name)
            = Some (VStr x)).
  { intros v name x (state & Hstate & Hkeep)%Settings_state Hname Hx.
    apply (Settings_model_openai lax state); [exact Hstate|exact Hname|].
    by apply Hkeep. }
  eexists _, _. split; [exact Hrun|]. split; [set_solver|]. split.
  { intros k. rewrite deep_merge_lookup. unfold merged_value.
    by destruct (sec !! k) as [[]|], (cfg !! k) as [[]|]. }
  split; [intros p v; apply deep_merge_path_precedence|].
  split; [intros p v; apply deep_merge_base_path|].
  split.
  { intros s Hs. rewrite Hrun in Hs. injection Hs as Hout.
    apply outcome_map_Ok in Hout as (v & Hv & ->). rewrite Hv.
    cbn [stored _settings obj_val]. split; [done|]. split.
    - intros x Hx. apply Hreturned; [exact Hv|by left|].
      by apply deep_merge_path_precedence.
    - intros x Hx Hsilent. apply Hreturned; [exact Hv|by right|].
      apply deep_merge_base_path; [done|exact Hx|].
      intros q v' Hq Hqne Hv'.
      destruct q as [|k1 q]; [done|].
      pose proof (prefix_cons_inv_1 _ _ _ _ Hq) as ->.
      apply prefix_cons_inv_2 in Hq.
      apply lookup_path_cons in Hv' as (o & Ho & Hv').
      destruct (Hsilent o Ho) as [Hdict Hnone].
      destruct q as [|k2 q].
      + injection Hv' as <-. done.
      + pose proof (prefix_cons_inv_1 _ _ _ _ Hq) as ->.
        apply prefix_cons_inv_2 in Hq. apply prefix_nil_inv in Hq as ->.
        congruence. }
  intros -> ->. split.
  - intros s Hs. rewrite Hrun in Hs. injection Hs as Hout.
    apply outcome_map_Ok in Hout as (v & Hv & ->). cbn [obj_val].
    apply (Hreturned v "api_key"); [exact Hv|by left|].
    by apply deep_merge_path_precedence.
  - intros Hnothing.
    assert (Hv : exists v,
              Settings lax init_params settings_sources w
                (deep_merge example_config example_secrets) = Ok v).
    { rewrite (Settings_binds_nothing w _ Hnothing).
      assert (Hmerged : deep_merge example_config example_secrets = example_secrets)
        by (vm_compute; reflexivity).
      rewrite Hmerged.
      rewrite init_kwargs_id by (apply map_Forall_singleton; reflexivity).
      eexists. vm_compute. reflexivity. }
    destruct Hv as [v Hv]. rewrite Hv in Hrun |- *. eexists. exact Hrun.
Qed.

End ResolverFacts.

(** *** More on get_settings *)

Lemma bind_inv {A B} (m : M A) (k : A -> M B) st r st' tr :
  (m ≫= k) st = (r, st', tr) ->
  (exists a st1 t1 t2,
      m st = (Ok a, st1, t1) /\ k a st1 = (r, st', t2) /\ tr = t1 ++ t2)
  \/ (failed r /\ exists r0, m st = (r0, st', tr) /\ failed r0).
Proof.
  rewrite bind_run. destruct (m st) as [[[a| |] st1] t1].
  - destruct (k a st1) as [[r2 st2] t2] eqn:Hk. intros [= <- <- <-].
    left. by exists a, st1, t1, t2.
  - intros [= <- <- <-]. right. split; [by left|]. exists ValidationError.
    split; [done|by left].
  - intros [= <- <- <-]. right. split; [by right|]. exists Raised.
    split; [done|by right].
Qed.

Lemma keeps_state_bind {A B} (m : M A) (k : A -> M B) :
  keeps_state m -> (forall a, keeps_state (k a)) -> keeps_state (m ≫= k).
Proof.
  intros Hm Hk st r st' tr
    [(a & st1 & t1 & t2 & H1 & H2 & _)|(_ & r0 & H1 & _)]%bind_inv.
  - apply Hm in H1 as ->. by eapply Hk.
  - by eapply Hm.
Qed.

Lemma fails_cleanly_bind {A B} (m : M A) (k : A -> M B) :
  keeps_state m -> (forall a, fails_cleanly (k a)) -> fails_cleanly (m ≫= k).
Proof.
  intros Hm Hk st r st' tr
    [(a & st1 & t1 & t2 & H1 & H2 & _)|(_ & r0 & H1 & _)]%bind_inv Hfail.
  - apply Hm in H1 as ->. by eapply Hk.
  - by eapply Hm.
Qed.

Lemma only_emits_bind {A B} P (Q : A -> Prop) (m : M A) (k : A -> M B) :
  only_emits P m -> returns Q m -> (forall a, Q a -> only_emits P (k a)) ->
  only_emits P (m ≫= k).
Proof.
  intros Hm HQ Hk st r st' tr
    [(a & st1 & t1 & t2 & H1 & H2 & ->)|(_ & r0 & H1 & _)]%bind_inv e He.
  - apply elem_of_app in He as [He|He]; [by eapply Hm|].
    eapply Hk; [by eapply HQ|done..].
  - by eapply Hm.
Qed.

Lemma returns_any {A} (m : M A) : returns (fun _ => True) m.
Proof. done. Qed.

Lemma keeps_state_ret {A} (a : A) : keeps_state (mret a).
Proof. by intros st r st' tr [= <- <- <-]. Qed.

Lemma keeps_state_emit e : keeps_state (emit e).
Proof. by intros st r st' tr [= <- <- <-]. Qed.

Lemma keeps_state_raise {A} : keeps_state (@raise A).
Proof. by intros st r st' tr [= <- <- <-]. Qed.

Lemma only_emits_silent {A} P (m : M A) :
  (forall st, (m st).2 = []) -> only_emits P m.
Proof.
  intros Hm st r st' tr Hrun e He. specialize (Hm st). rewrite Hrun in Hm.
  simpl in Hm. subst tr. by apply elem_of_nil in He.
Qed.

Lemma only_emits_emit (P : event -> Prop) e : P e -> only_emits P (emit e).
Proof. intros HP st r st' tr [= <- <- <-] e' ->%list_elem_of_singleton. done. Qed.

Section ResolverSteps.
Context (lax : prim -> pyval -> option pyval).
Context (yaml_safe_load : string -> option pyval).
Context (Path : string -> list string).
Context (init_params : list string).
Context (settings_sources :
  settings_config -> world -> gmap string pyval -> outcome (list (gmap string pyval))).

Lemma keeps_state_exists w p : keeps_state (exists_ w p).
Proof.
  apply keeps_state_bind; [apply keeps_state_emit|intros; apply keeps_state_ret].
Qed.

Lemma keeps_state_open_read w p : keeps_state (open_read w p).
Proof.
  apply keeps_state_bind; [apply keeps_state_emit|intros _].
  destruct (fs w p) as [[]|]; auto using @keeps_state_ret, @keeps_state_raise.
Qed.

Lemma keeps_state_load_yaml text : keeps_state (load_yaml yaml_safe_load text).
Proof.
  apply keeps_state_bind; [apply keeps_state_emit|intros _].
  destruct (yaml_safe_load text); auto using @keeps_state_ret, @keeps_state_raise.
Qed.

Lemma keeps_state_call_deep_merge base update :
  keeps_state (call_deep_merge base update).
Proof.
  apply keeps_state_bind; [apply keeps_state_emit|intros _].
  destruct base, update; try case_bool_decide;
    auto using @keeps_state_ret, @keeps_state_raise.
Qed.

Lemma keeps_state_config_file_of w config_path :
  keeps_state (config_file_of Path w config_path).
Proof.
  unfold config_file_of. destruct config_path as [s|];
    [destruct (negb (String.eqb s ""))|];
    auto using @keeps_state_ret, @keeps_state_bind, keeps_state_emit.
Qed.

Lemma keeps_state_load_secrets w merged_settings :
  keeps_state (load_secrets yaml_safe_load w merged_settings).
Proof.
  apply keeps_state_bind; [apply keeps_state_emit|intros _].
  destruct (find_secrets w) as [sf|]; [|apply keeps_state_ret].
  apply keeps_state_bind; [apply keeps_state_exists|intros [|]];
    [|apply keeps_state_ret].
  apply keeps_state_bind; [apply keeps_state_open_read|intros text].
  apply keeps_state_bind; [apply keeps_state_load_yaml|intros y].
  apply keeps_state_call_deep_merge.
Qed.

Lemma init_store_fails_cleanly w merged_settings :
  fails_cleanly (s ← Settings_init lax init_params settings_sources w merged_settings;
                 _ ← write_global s; mret s).
Proof.
  intros st r st' tr Hrun Hfail.
  destruct merged_settings as [| | | | | |kwargs|];
    try (rewrite bind_run in Hrun; unfold Settings_init in Hrun;
         rewrite bind_run in Hrun; by injection Hrun as <- <- <-).
  rewrite init_store_run in Hrun.
  destruct (Settings lax init_params settings_sources w kwargs);
    injection Hrun as <- <- <-;
    [by destruct Hfail|done|done].
Qed.

(** X12. A call that ends with an exception leaves the process state as it
    was: nothing is cached and no object identity is used up, so the next
    call resolves from scratch. *)
Theorem get_settings_failure_keeps_state w config_path st r st' tr :
  get_settings lax yaml_safe_load Path
    init_params settings_sources w config_path st = (r, st', tr) ->
  failed r ->
  st' = st.
Proof.
  revert st r st' tr. change (fails_cleanly (get_settings lax yaml_safe_load Path
                                               init_params settings_sources w config_path)).
  unfold get_settings.
  apply fails_cleanly_bind; [by intros st r st' tr [= <- <- <-]|intros cached].
  destruct cached as [s|].
  { intros st r st' tr [= <- <- <-] Hfail. done. }
  apply fails_cleanly_bind; [apply keeps_state_config_file_of|intros cf].
  destruct cf as [cf|]; [|apply init_store_fails_cleanly].
  apply fails_cleanly_bind; [apply keeps_state_exists|intros [|]];
    [|apply init_store_fails_cleanly].
  apply fails_cleanly_bind; [apply keeps_state_open_read|intros text].
  apply fails_cleanly_bind; [apply keeps_state_load_yaml|intros y].
  apply fails_cleanly_bind; [apply keeps_state_load_secrets|intros merged_settings].
  apply init_store_fails_cleanly.
Qed.


Lemma only_emits_exists (P : event -> Prop) w p :
  P (EvExists p) -> only_emits P (exists_ w p).
Proof.
  intros HP. eapply only_emits_bind;
    [by apply only_emits_emit|apply returns_any|].
  intros _ _. by apply only_emits_silent.
Qed.

Lemma only_emits_open_read (P : event -> Prop) w p :
  P (EvOpen p) -> only_emits P (open_read w p).
Proof.
  intros HP. eapply only_emits_bind;
    [by apply only_emits_emit|apply returns_any|].
  intros _ _. destruct (fs w p) as [[]|]; by apply only_emits_silent.
Qed.

Lemma only_emits_load_yaml (P : event -> Prop) text :
  P (EvYamlLoad text) -> only_emits P (load_yaml yaml_safe_load text).
Proof.
  intros HP. eapply only_emits_bind;
    [by apply only_emits_emit|apply returns_any|].
  intros _ _. destruct (yaml_safe_load text); by apply only_emits_silent.
Qed.

Lemma only_emits_call_deep_merge (P : event -> Prop) base update :
  P EvDeepMerge -> only_emits P (call_deep_merge base update).
Proof.
  intros HP. eapply only_emits_bind;
    [by apply only_emits_emit|apply returns_any|].
  intros _ _. destruct base, update; try case_bool_decide;
    by apply only_emits_silent.
Qed.

Lemma only_emits_init_store (P : event -> Prop) w merged_settings :
  P EvSettingsInit ->
  only_emits P (s ← Settings_init lax init_params settings_sources w merged_settings;
                _ ← write_global s; mret s).
Proof.
  intros HP. eapply only_emits_bind; [|apply returns_any|].
  - unfold Settings_init. eapply only_emits_bind;
      [by apply only_emits_emit|apply returns_any|].
    intros _ _. destruct merged_settings; try by apply only_emits_silent.
    eapply only_emits_bind; [by apply only_emits_silent|apply returns_any|].
    intros v _. by apply only_emits_silent.
  - intros s _. eapply only_emits_bind;
      [by apply only_emits_silent|apply returns_any|].
    intros _ _. by apply only_emits_silent.
Qed.

Lemma only_emits_load_secrets (P : event -> Prop) w merged_settings :
  P EvFindSecrets -> P EvDeepMerge ->
  (forall text, P (EvYamlLoad text)) ->
  (forall sf, find_secrets w = Some sf -> P (EvExists sf) /\ P (EvOpen sf)) ->
  only_emits P (load_secrets yaml_safe_load w merged_settings).
Proof.
  intros H1 H2 H3 H4. eapply only_emits_bind;
    [by apply only_emits_emit|apply returns_any|intros _ _].
  destruct (find_secrets w) as [sf|]; [|by apply only_emits_silent].
  destruct (H4 sf eq_refl) as [Hex Hop].
  eapply only_emits_bind; [by apply only_emits_exists|apply returns_any|].
  intros [|] _; [|by apply only_emits_silent].
  eapply only_emits_bind; [by apply only_emits_open_read|apply returns_any|].
  intros text _.
  eapply only_emits_bind; [by apply only_emits_load_yaml|apply returns_any|].
  intros y _. by apply only_emits_call_deep_merge.
Qed.

Lemma only_emits_config_file_of (P : event -> Prop) w config_path :
  ((config_path = None \/ config_path = Some "") -> P EvFindConfig) ->
  only_emits P (config_file_of Path w config_path).
Proof.
  intros HP. unfold config_file_of. destruct config_path as [s|].
  - destruct (String.eqb_spec s "") as [->|Hs]; cbn [negb].
    + eapply only_emits_bind; [apply only_emits_emit; auto|apply returns_any|].
      intros _ _. by apply only_emits_silent.
    + by apply only_emits_silent.
  - eapply only_emits_bind; [apply only_emits_emit; auto|apply returns_any|].
    intros _ _. by apply only_emits_silent.
Qed.

Lemma returns_config_file_of w config_path :
  returns (fun o => forall cf, o = Some cf -> config_file_is Path w config_path cf)
    (config_file_of Path w config_path).
Proof.
  intros st o st' tr. unfold config_file_of. destruct config_path as [s|].
  - destruct (String.eqb_spec s "") as [->|Hs]; cbn [negb].
    + rewrite bind_run. intros [= <- _ _] cf Hcf. right. eauto.
    + intros [= <- _ _] cf [= <-]. left. eauto.
  - rewrite bind_run. intros [= <- _ _] cf Hcf. right. eauto.
Qed.

(** The events of a call, whatever its outcome. *)
Lemma get_settings_only_emits (P : event -> Prop) w config_path :
  ((config_path = None \/ config_path = Some "") -> P EvFindConfig) ->
  P EvFindSecrets -> P EvDeepMerge -> P EvSettingsInit ->
  (forall text, P (EvYamlLoad text)) ->
  (forall p, config_file_is Path w config_path p \/ find_secrets w = Some p ->
             P (EvExists p) /\ P (EvOpen p)) ->
  only_emits P (get_settings lax yaml_safe_load Path
                  init_params settings_sources w config_path).
Proof.
  intros Hfc Hfs Hdm Hinit Hyaml Hpaths. unfold get_settings.
  eapply only_emits_bind; [by apply only_emits_silent|apply returns_any|].
  intros [s|] _; [by apply only_emits_silent|].
  eapply only_emits_bind;
    [by apply only_emits_config_file_of|apply returns_config_file_of|].
  intros [cf|] Hcf; [|by apply only_emits_init_store].
  destruct (Hpaths cf) as [Hex Hop]; [left; by apply Hcf|].
  eapply only_emits_bind; [by apply only_emits_exists|apply returns_any|].
  intros [|] _; [|by apply only_emits_init_store].
  eapply only_emits_bind; [by apply only_emits_open_read|apply returns_any|].
  intros text _.
  eapply only_emits_bind; [by apply only_emits_load_yaml|apply returns_any|].
  intros y _.
  eapply only_emits_bind; [|apply returns_any|].
  - apply only_emits_load_secrets; try done. intros sf Hsf. apply Hpaths. by right.
  - intros m _. by apply only_emits_init_store.
Qed.

(** X13. With a non-empty explicit path the config locator is never invoked,
    however the call ends. *)
Theorem get_settings_explicit_path_skips_locator w s st r st' tr :
  s <> "" ->
  get_settings lax yaml_safe_load Path
    init_params settings_sources w (Some s) st = (r, st', tr) ->
  EvFindConfig ∉ tr.
Proof.
  intros Hs Hrun Hin.
  apply (get_settings_only_emits (fun e => e <> EvFindConfig) w (Some s))
    in Hrun; try done.
  - by apply (Hrun EvFindConfig).
  - intros [|[=]]; done.
Qed.

End ResolverSteps.

Section ResolverMore.
Context (lax : prim -> pyval -> option pyval).
Context (yaml_safe_load : string -> option pyval).
Context (Path : string -> list string).
Context (init_params : list string).
Context (settings_sources :
  settings_config -> world -> gmap string pyval -> outcome (list (gmap string pyval))).

(** The steps of a first resolution up to the parsed config tree. *)
Lemma get_settings_after_config w config_path st cf text y :
  _settings st = None ->
  config_file_is Path w config_path cf ->
  fs w cf = Some (File text) ->
  yaml_safe_load text = Some y ->
  exists tr0,
    (tr0 = [] \/ tr0 = [EvFindConfig]) /\
    get_settings lax yaml_safe_load Path init_params settings_sources w config_path st =
      let '(r, st', tr) :=
        (merged_settings ← load_secrets yaml_safe_load w (or_empty_dict y);
         s ← Settings_init lax init_params settings_sources w merged_settings;
         _ ← write_global s; mret s) st in
      (r, st', tr0 ++ [EvExists cf; EvOpen cf; EvYamlLoad text] ++ tr).
Proof.
  intros Hc Hcf Hfile Hy.
  destruct (config_file_of_is Path w config_path cf st Hcf) as (tr0 & Hrun & Htr0).
  exists tr0. split; [exact Htr0|].
  unfold get_settings. rewrite bind_run. unfold read_global.
  rewrite Hc. cbn iota. rewrite bind_run, Hrun. cbn iota.
  rewrite bind_run. unfold exists_ at 1. rewrite bind_run. unfold emit.
  cbn [mret M_ret]. unfold path_exists at 1. rewrite Hfile. cbn iota.
  rewrite bind_run. unfold open_read at 1. rewrite bind_run. unfold emit.
  rewrite Hfile. cbn [mret M_ret]. cbn iota.
  rewrite bind_run. unfold load_yaml at 1. rewrite bind_run. unfold emit.
  rewrite Hy. cbn [mret M_ret]. cbn iota.
  destruct ((merged_settings ← load_secrets yaml_safe_load w (or_empty_dict y);
             s ← Settings_init lax init_params settings_sources w merged_settings;
             _ ← write_global s; mret s) st)
    as [[r st'] tr].
  cbn [app]. reflexivity.
Qed.

(** A first resolution with a config file holding a mapping and no secrets
    file: the steps taken and the result. *)
Lemma get_settings_config_only_run w config_path st cf text y cfg :
  _settings st = None ->
  config_file_is Path w config_path cf ->
  fs w cf = Some (File text) ->
  yaml_safe_load text = Some y -> or_empty_dict y = VDict cfg ->
  find_secrets w = None ->
  exists tr,
    (EvDeepMerge ∉ tr) /\
    get_settings lax yaml_safe_load Path init_params settings_sources w config_path st =
      (outcome_map (Instance_ (next_id st))
         (Settings lax init_params settings_sources w cfg),
       stored st (Settings lax init_params settings_sources w cfg), tr).
Proof.
  intros Hc Hcf Hfile Hy Hcfg Hsf.
  destruct (get_settings_after_config w config_path st cf text y)
    as (tr0 & Htr0 & Hrun); try done.
  rewrite Hcfg in Hrun. rewrite bind_run in Hrun. unfold load_secrets in Hrun.
  rewrite bind_run in Hrun. unfold emit in Hrun. rewrite Hsf in Hrun.
  cbn [mret M_ret] in Hrun. cbn iota in Hrun.
  rewrite init_store_run in Hrun.
  exists (tr0 ++ [EvExists cf; EvOpen cf; EvYamlLoad text] ++
            ([EvFindSecrets] ++ []) ++ [EvSettingsInit]).
  split.
  - rewrite !not_elem_of_app, !not_elem_of_cons.
    split_and!; try done; try apply not_elem_of_nil.
    destruct Htr0 as [->| ->]; rewrite ?not_elem_of_cons;
      split_and?; try done; apply not_elem_of_nil.
  - rewrite Hrun. by destruct (Settings lax init_params settings_sources w cfg).
Qed.

(** The tree of the example binds, and the result holds defaults where the
    tree gives nothing. *)
Lemma construct_example_servers :
  exists v,
    construct lax Settings_model example_servers = Ok v
    /\ getattr v "execution_engine" = Some (VStr "asyncio")
    /\ (getattr v "logger" ≫= fun logger => getattr logger "level")
       = Some (VStr "info").
Proof.
  eexists. split; [vm_compute; reflexivity|]. split_and!; by vm_compute.
Qed.

(** X15. With a config file that holds a mapping and no secrets file found,
    nothing is merged and the call ends as the class call on the config tree
    does; an empty or null document makes it the call without keywords. A
    string the tree gives for the [command] of a server is in the object
    returned whatever the environment sources hold: for the tree of the
    example [mcp.servers.foo.command] is [npx]. When the environment sources
    bind no field, an empty document gives the all-defaults object, and the
    tree of the example gives an object whose other fields keep their
    defaults. *)
Theorem get_settings_config_only w config_path st cf text y cfg :
  _settings st = None ->
  config_file_is Path w config_path cf ->
  fs w cf = Some (File text) ->
  yaml_safe_load text = Some y -> or_empty_dict y = VDict cfg ->
  find_secrets w = None ->
  exists st' tr,
    get_settings lax yaml_safe_load Path init_params settings_sources w config_path st =
      (outcome_map (Instance_ (next_id st))
         (Settings lax init_params settings_sources w cfg), st', tr)
    /\ (EvDeepMerge ∉ tr)
    /\ (truthy y = false -> cfg = ∅)
    /\ (forall s name x,
          get_settings lax yaml_safe_load Path
            init_params settings_sources w config_path st =
            (Ok s, st', tr) ->
          lookup_path ["mcp"; "servers"; name; "command"] (VDict cfg) = Some (VStr x) ->
          (mcp ← getattr (obj_val s) "mcp";
           servers ← getattr mcp "servers";
           server ← subscript servers name;
           getattr server "command") = Some (VStr x))
    /\ (environment_binds_nothing init_params settings_sources w cfg ->
        (truthy y = false ->
         get_settings lax yaml_safe_load Path
           init_params settings_sources w config_path st =
           (Ok (Instance_ (next_id st) (default_instance Settings_model)), st', tr))
        /\ (cfg = example_servers ->
            exists s,
              get_settings lax yaml_safe_load Path
                init_params settings_sources w config_path st =
                (Ok s, st', tr)
              /\ (mcp ← getattr (obj_val s) "mcp";
                  servers ← getattr mcp "servers";
                  foo ← subscript servers "foo";
                  getattr foo "command") = Some (VStr "npx")
              /\ getattr (obj_val s) "execution_engine" = Some (VStr "asyncio")
              /\ (getattr (obj_val s) "logger" ≫= fun logger => getattr logger "level")
                 = Some (VStr "info"))).
Proof.
  intros Hc Hcf Hfile Hy Hcfg Hsf.
  destruct (get_settings_config_only_run w config_path st cf text y cfg)
    as (tr & Hno & Hrun); try done.
  assert (Hempty : truthy y = false -> cfg = ∅).
  { intros Hy'. unfold or_empty_dict in Hcfg. rewrite Hy' in Hcfg. congruence. }
  assert (Hcommand : forall s name x,
            get_settings lax yaml_safe_load Path
              init_params settings_sources w config_path st =
              (Ok s, stored st (Settings lax init_params settings_sources w cfg), tr) ->
            lookup_path ["mcp"; "servers"; name; "command"] (VDict cfg) = Some (VStr x) ->
            (mcp ← getattr (obj_val s) "mcp";
             servers ← getattr mcp "servers";
             server ← subscript servers name;
             getattr server "command") = Some (VStr x)).
  { intros s name x Hs Hx. rewrite Hrun in Hs. injection Hs as Hout.
    apply outcome_map_Ok in Hout as (v & Hv & ->). cbn [obj_val].
    apply (Settings_state lax init_params settings_sources) in Hv
      as (state & Hstate & Hkeep).
    apply (Settings_model_server_command lax state); [exact Hstate|].
    by apply Hkeep. }
  eexists _, tr. split; [exact Hrun|]. split; [exact Hno|].
  split; [exact Hempty|]. split; [exact Hcommand|].
  intros Hnothing.
  pose proof (Settings_binds_nothing lax init_params settings_sources w cfg Hnothing)
    as Hcall.
  split.
  - intros ->%Hempty. rewrite init_kwargs_empty, default_construct in Hcall.
    rewrite Hcall in Hrun |- *. exact Hrun.
  - intros ->.
    rewrite init_kwargs_id in Hcall by (apply map_Forall_singleton; reflexivity).
    destruct construct_example_servers as (v0 & Hv0 & Hengine & Hlevel).
    rewrite Hv0 in Hcall.
    assert (Hs : get_settings lax yaml_safe_load Path init_params settings_sources
                   w config_path st =
                 (Ok (Instance_ (next_id st) v0),
                  stored st (Settings lax init_params settings_sources w example_servers),
                  tr)).
    { rewrite Hrun. by rewrite Hcall. }
    eexists. split; [exact Hs|]. cbn [obj_val].
    split; [|split; [exact Hengine|exact Hlevel]].
    by apply (Hcommand _ "foo" "npx" Hs).
Qed.

(** X16. A config file that cannot be read as YAML (the path is a directory,
    or the parser rejects the text) makes the call raise, and nothing is
    cached. *)
Theorem get_settings_unreadable_config w config_path st cf :
  _settings st = None ->
  config_file_is Path w config_path cf ->
  fs w cf = Some Dir
  \/ (exists text, fs w cf = Some (File text) /\ yaml_safe_load text = None) ->
  exists tr, get_settings lax yaml_safe_load Path
               init_params settings_sources w config_path st = (Raised, st, tr).
Proof.
  intros Hc Hcf Hbad.
  destruct (config_file_of_is Path w config_path cf st Hcf) as (tr0 & Hrun & _).
  unfold get_settings. rewrite bind_run. unfold read_global.
  rewrite Hc. cbn iota. rewrite bind_run, Hrun. cbn iota.
  rewrite bind_run. unfold exists_ at 1. rewrite bind_run. unfold emit.
  cbn [mret M_ret]. unfold path_exists at 1.
  destruct Hbad as [Hdir|(text & Hfile & Hy)].
  - rewrite Hdir. cbn iota.
    rewrite bind_run. unfold open_read at 1. rewrite bind_run. unfold emit.
    rewrite Hdir. by eexists.
  - rewrite Hfile. cbn iota.
    rewrite bind_run. unfold open_read at 1. rewrite bind_run. unfold emit.
    rewrite Hfile. cbn [mret M_ret]. cbn iota.
    rewrite bind_run. unfold load_yaml at 1. rewrite bind_run. unfold emit.
    rewrite Hy. by eexists.
Qed.

(** X17. A secrets file that cannot be read as YAML makes the whole call
    raise, whatever the config file holds: there is no fallback to the
    config alone, and nothing is cached. *)
Theorem get_settings_malformed_secrets w config_path st cf text y sf :
  _settings st = None ->
  config_file_is Path w config_path cf ->
  fs w cf = Some (File text) ->
  yaml_safe_load text = Some y ->
  find_secrets w = Some sf ->
  fs w sf = Some Dir
  \/ (exists text2, fs w sf = Some (File text2) /\ yaml_safe_load text2 = None) ->
  exists tr, get_settings lax yaml_safe_load Path
               init_params settings_sources w config_path st = (Raised, st, tr).
Proof.
  intros Hc Hcf Hfile Hy Hsf Hbad.
  destruct (get_settings_after_config w config_path st cf text y)
    as (tr0 & _ & ->); try done.
  rewrite bind_run. unfold load_secrets. rewrite bind_run. unfold emit.
  rewrite Hsf. cbn iota.
  rewrite bind_run. unfold exists_. rewrite bind_run. unfold emit.
  cbn [mret M_ret]. unfold path_exists.
  destruct Hbad as [Hdir|(text2 & Hfile2 & Hy2)].
  - rewrite Hdir. cbn iota.
    rewrite bind_run. unfold open_read. rewrite bind_run. unfold emit.
    rewrite Hdir. by eexists.
  - rewrite Hfile2. cbn iota.
    rewrite bind_run. unfold open_read. rewrite bind_run. unfold emit.
    rewrite Hfile2. cbn [mret M_ret]. cbn iota.
    rewrite bind_run. unfold load_yaml. rewrite bind_run. unfold emit.
    rewrite Hy2. by eexists.
Qed.

Lemma init_store_not_dict w merged_settings st :
  isinstance_dict merged_settings = false ->
  (s ← Settings_init lax init_params settings_sources w merged_settings;
   _ ← write_global s; mret s) st
  = (Raised, st, [EvSettingsInit]).
Proof. by destruct merged_settings. Qed.

Lemma load_secrets_not_dict w base st :
  isinstance_dict base = false ->
  exists tr,
    load_secrets yaml_safe_load w base st = (Raised, st, tr)
    \/ exists m, load_secrets yaml_safe_load w base st = (Ok m, st, tr)
                 /\ isinstance_dict m = false.
Proof.
  intros Hb. unfold load_secrets. rewrite bind_run. unfold emit.
  destruct (find_secrets w) as [sf|]; [|eexists; right; by exists base].
  rewrite bind_run. unfold exists_. rewrite bind_run. unfold emit.
  cbn [mret M_ret]. destruct (path_exists w sf); [|eexists; right; by exists base].
  rewrite bind_run. unfold open_read. rewrite bind_run. unfold emit.
  destruct (fs w sf) as [[text2|]|]; [|by eexists; left..].
  cbn [mret M_ret]. cbn iota.
  rewrite bind_run. unfold load_yaml. rewrite bind_run. unfold emit.
  destruct (yaml_safe_load text2) as [y2|]; [|by eexists; left].
  cbn [mret M_ret]. cbn iota.
  unfold call_deep_merge. rewrite bind_run. unfold emit.
  destruct base as [| | | | |l|b|]; try done; try (by eexists; left).
  destruct (or_empty_dict y2) as [| | | | | |u|]; try (by eexists; left).
  case_bool_decide; [|by eexists; left].
  eexists. right. by exists (VList l).
Qed.

(** X18. A config document whose top level is not a mapping (a non-empty
    list, a non-empty string, a number) makes the call raise, with or without
    a secrets file, and nothing is cached. *)
Theorem get_settings_config_not_a_mapping w config_path st cf text y :
  _settings st = None ->
  config_file_is Path w config_path cf ->
  fs w cf = Some (File text) ->
  yaml_safe_load text = Some y ->
  truthy y = true -> isinstance_dict y = false ->
  exists tr, get_settings lax yaml_safe_load Path
               init_params settings_sources w config_path st = (Raised, st, tr).
Proof.
  intros Hc Hcf Hfile Hy Htruthy Hnd.
  destruct (get_settings_after_config w config_path st cf text y)
    as (tr0 & _ & ->); try done.
  unfold or_empty_dict. rewrite Htruthy. rewrite bind_run.
  destruct (load_secrets_not_dict w y st Hnd) as (tr & [->|(m & -> & Hm)]).
  - by eexists.
  - rewrite init_store_not_dict by done. by eexists.
Qed.

End ResolverMore.

Section ResolverEndToEnd.
Context (lax : prim -> pyval -> option pyval).
Context (yaml_safe_load : string -> option pyval).
Context (Path : string -> list string).
Context (init_params : list string).
Context (settings_sources :
  settings_config -> world -> gmap string pyval -> outcome (list (gmap string pyval))).

(** A bad root among the keywords is in every state built from them. *)
Lemma bad_root_in_state w kwargs v mcp servers name server roots :
  Settings lax init_params settings_sources w kwargs = Ok v ->
  kwargs !! "mcp" = Some (VDict mcp) ->
  mcp !! "servers" = Some (VDict servers) ->
  servers !! name = Some (VDict server) ->
  server !! "roots" = Some (VList roots) ->
  exists state mcp' servers' server',
    construct lax Settings_model state = Ok v
    /\ state !! "mcp" = Some (VDict mcp')
    /\ mcp' !! "servers" = Some (VDict servers')
    /\ servers' !! name = Some (VDict server')
    /\ server' !! "roots" = Some (VList roots).
Proof.
  intros (state & Hstate & Hkeep)%Settings_state Hmcp Hservers Hserver Hroots.
  assert (Hpath : lookup_path ["mcp"; "servers"; name; "roots"] (VDict state)
                  = Some (VList roots)).
  { apply Hkeep; [done| |done]. cbn [lookup_path].
    by rewrite Hmcp, Hservers, Hserver, Hroots. }
  apply lookup_path_cons in Hpath
    as (m' & Hm & (m & ss' & -> & Hss
                   & (ss & s' & -> & Hs
                      & (s & r & -> & Hr & [= ->])%lookup_path_dict
                     )%lookup_path_dict)%lookup_path_dict).
  by exists state, m, ss, s.
Qed.

Lemma Settings_bad_root_uri_failed w kwargs mcp servers name server roots i root uri :
  kwargs !! "mcp" = Some (VDict mcp) ->
  mcp !! "servers" = Some (VDict servers) ->
  servers !! name = Some (VDict server) ->
  server !! "roots" = Some (VList roots) ->
  roots !! i = Some (VDict root) ->
  root !! "uri" = Some (VStr uri) ->
  startswith uri "file://" = false ->
  failed (Settings lax init_params settings_sources w kwargs).
Proof.
  intros Hmcp Hservers Hserver Hroots Hroot Huri Hbad.
  apply not_Ok_failed. intros v Hv.
  destruct (bad_root_in_state w kwargs v mcp servers name server roots Hv
              Hmcp Hservers Hserver Hroots)
    as (state & mcp' & servers' & server' & Hstate & H1 & H2 & H3 & H4).
  by apply (Settings_bad_root_uri_not_Ok lax state mcp' servers' name server' roots
              i root uri H1 H2 H3 H4 Hroot Huri Hbad v).
Qed.

(** X22. A server root whose [uri] does not start with [file://], anywhere
    under [mcp.servers.<name>.roots], makes the construction of [Settings]
    fail: the validation of a state that holds it fails, and so does the
    class call with such keywords, whatever the environment sources hold. *)
Theorem Settings_rejects_bad_root_uri
    w kwargs mcp servers name server roots i root uri :
  kwargs !! "mcp" = Some (VDict mcp) ->
  mcp !! "servers" = Some (VDict servers) ->
  servers !! name = Some (VDict server) ->
  server !! "roots" = Some (VList roots) ->
  roots !! i = Some (VDict root) ->
  root !! "uri" = Some (VStr uri) ->
  startswith uri "file://" = false ->
  failed (construct lax Settings_model kwargs)
  /\ failed (Settings lax init_params settings_sources w kwargs).
Proof.
  intros. split.
  - apply not_Ok_failed. by eapply Settings_bad_root_uri_not_Ok.
  - by eapply Settings_bad_root_uri_failed.
Qed.

(** X23. When the config file holds a server root whose [uri] does not start
    with [file://] and no secrets file is found, the call fails and nothing
    is cached. *)
Theorem get_settings_rejects_bad_root_uri
    w config_path st cf text y cfg mcp servers name server roots i root uri :
  _settings st = None ->
  config_file_is Path w config_path cf ->
  fs w cf = Some (File text) ->
  yaml_safe_load text = Some y -> or_empty_dict y = VDict cfg ->
  find_secrets w = None ->
  cfg !! "mcp" = Some (VDict mcp) ->
  mcp !! "servers" = Some (VDict servers) ->
  servers !! name = Some (VDict server) ->
  server !! "roots" = Some (VList roots) ->
  roots !! i = Some (VDict root) ->
  root !! "uri" = Some (VStr uri) ->
  startswith uri "file://" = false ->
  exists r tr,
    get_settings lax yaml_safe_load Path
      init_params settings_sources w config_path st = (r, st, tr)
    /\ failed r.
Proof.
  intros Hc Hcf Hfile Hy Hcfg Hsf Hmcp Hservers Hserver Hroots Hroot Huri Hbad.
  destruct (get_settings_config_only_run lax yaml_safe_load Path
              init_params settings_sources
              w config_path st cf text y cfg) as (tr & _ & Hrun); try done.
  pose proof (Settings_bad_root_uri_failed w cfg mcp servers name server roots
                i root uri Hmcp Hservers Hserver Hroots Hroot Huri Hbad) as Hfailed.
  destruct Hfailed as [Hfailed|Hfailed]; rewrite Hfailed in Hrun.
  - exists ValidationError, tr. split; [exact Hrun|by left].
  - exists Raised, tr. split; [exact Hrun|by right].
Qed.

End ResolverEndToEnd.

(** ** Part III. The theorems at concrete inputs *)

Lemma get_settings_memoises_witness :
  _settings (PState (Some (Instance_ 0 (default_instance Settings_model))) 1)
    = Some (Instance_ 0 (default_instance Settings_model))
  /\ (forall w' config_path',
        get_settings no_lax example_load example_Path
          BaseSettings_init_params empty_environment w' config_path'
          (PState (Some (Instance_ 0 (default_instance Settings_model))) 1)
        = (Ok (Instance_ 0 (default_instance Settings_model)),
           PState (Some (Instance_ 0 (default_instance Settings_model))) 1, []))
  /\ (forall calls,
        run_calls no_lax example_load example_Path
          BaseSettings_init_params empty_environment calls
          (PState (Some (Instance_ 0 (default_instance Settings_model))) 1)
        = ((fun _ => (Ok (Instance_ 0 (default_instance Settings_model)), [])) <$> calls,
           PState (Some (Instance_ 0 (default_instance Settings_model))) 1)).
Proof.
  apply (get_settings_memoises no_lax example_load example_Path
           BaseSettings_init_params empty_environment
           secrets_only_world None fresh_process
           (Instance_ 0 (default_instance Settings_model))
           (PState (Some (Instance_ 0 (default_instance Settings_model))) 1)
           [EvFindConfig; EvSettingsInit]).
  vm_compute. reflexivity.
Defined.





Lemma get_settings_secrets_take_precedence_witness :
  exists s st' tr,
    get_settings no_lax openai_load example_Path
      BaseSettings_init_params empty_environment example_world None fresh_process
      = (Ok s, st', tr)
    /\ EvDeepMerge ∈ tr
    /\ (getattr (obj_val s) "openai" ≫= fun openai => getattr openai "api_key")
       = Some (VStr "secret-key")
    /\ (getattr (obj_val s) "openai" ≫= fun openai => getattr openai "base_url")
       = Some (VStr "https://example.org/v1").
Proof.
  destruct (get_settings_secrets_take_precedence no_lax openai_load example_Path
              BaseSettings_init_params empty_environment
              example_world None fresh_process
              ["home"; "u"; "proj"; "mcp-agent.config.yaml"] "config"
              (VDict openai_config) openai_config
              ["home"; "u"; "mcp_agent.secrets.yaml"] "secrets"
              (VDict example_secrets) example_secrets)
    as (st' & tr & Hrun & Hmerge & _ & _ & _ & Hreturned & _).
  - reflexivity.
  - right. split; [by left|]. vm_compute. reflexivity.
  - vm_compute. reflexivity.
  - reflexivity.
  - vm_compute. reflexivity.
  - vm_compute. reflexivity.
  - vm_compute. reflexivity.
  - reflexivity.
  - vm_compute. reflexivity.
  - assert (Hv : exists v,
              Settings no_lax BaseSettings_init_params empty_environment example_world
                (deep_merge openai_config example_secrets) = Ok v)
      by (eexists; vm_compute; reflexivity).
    destruct Hv as [v Hv]. rewrite Hv in Hrun.
    destruct (Hreturned _ Hrun) as (_ & Hkey & Hurl).
    eexists _, st', tr. split; [exact Hrun|]. split; [exact Hmerge|]. split.
    + apply Hkey. vm_compute. reflexivity.
    + apply Hurl; [vm_compute; reflexivity|].
      intros v' Hv'. vm_compute in Hv'. injection Hv' as <-.
      split; vm_compute; reflexivity.
Defined.

Lemma find_loop_fuel_witness :
  find_loop 4 example_world config_filenames ["home"; "u"; "proj"]
  = find_loop 9 example_world config_filenames ["home"; "u"; "proj"].
Proof.
  apply (find_loop_fuel example_world config_filenames 4 9 ["home"; "u"; "proj"]);
    simpl; lia.
Defined.

Lemma find_config_nearest_witness :
  _find_config example_world config_filenames
  = Some ["home"; "u"; "proj"; "mcp-agent.config.yaml"].
Proof.
  apply (find_config_nearest example_world config_filenames).
  - discriminate.
  - vm_compute. reflexivity.
Defined.

Lemma find_config_sound_witness :
  exists d filename,
    d `prefix_of` cwd example_world /\ d <> [] /\ filename ∈ secrets_filenames /\
    ["home"; "u"; "mcp_agent.secrets.yaml"] = joinpath d filename /\
    path_exists example_world ["home"; "u"; "mcp_agent.secrets.yaml"] = true.
Proof.
  apply (find_config_sound example_world secrets_filenames
           ["home"; "u"; "mcp_agent.secrets.yaml"]).
  vm_compute. reflexivity.
Defined.

Lemma find_config_nearest_first_witness :
  exists d,
    d `prefix_of` cwd example_world /\ d <> [] /\
    first_existing example_world d secrets_filenames
      = Some ["home"; "u"; "mcp_agent.secrets.yaml"] /\
    forall d' filename,
      d `prefix_of` d' -> d' `prefix_of` cwd example_world -> d' <> d ->
      filename ∈ secrets_filenames ->
      path_exists example_world (joinpath d' filename) = false.
Proof.
  apply (find_config_nearest_first example_world secrets_filenames
           ["home"; "u"; "mcp_agent.secrets.yaml"]).
  vm_compute. reflexivity.
Defined.

Lemma deep_merge_keeps_base_path_witness :
  lookup_path ["a"; "x"]
    (VDict (deep_merge {[ "a" := VDict {[ "x" := VInt 1; "y" := VInt 2 ]} ]}
                       {[ "a" := VDict {[ "y" := VInt 3 ]} ]}))
  = Some (VInt 1).
Proof.
  apply (deep_merge_keeps_base_path ["a"; "x"]
           {[ "a" := VDict {[ "x" := VInt 1; "y" := VInt 2 ]} ]}
           {[ "a" := VDict {[ "y" := VInt 3 ]} ]} (VInt 1)).
  - discriminate.
  - vm_compute. reflexivity.
  - intros q v' Hq Hne Hlook.
    destruct q as [|k1 [|k2 [|k3 q]]]; [done| | |].
    + apply prefix_cons_inv_1 in Hq as ->. vm_compute in Hlook.
      injection Hlook as <-. split; [reflexivity|discriminate].
    + pose proof (prefix_cons_inv_1 _ _ _ _ Hq) as ->.
      apply prefix_cons_inv_2, prefix_cons_inv_1 in Hq as ->.
      vm_compute in Hlook. discriminate.
    + apply prefix_length in Hq. simpl in Hq. lia.
Defined.

Lemma deep_merge_h_shares_witness :
  6 = length example_heap /\
  exists em,
    (example_heap ++ [HDict {[ "a" := 7 ]}; HDict {[ "x" := 2; "y" := 5 ]}]) !! 6
      = Some (HDict em)
    /\ (forall key, ({[ "a" := 4 ]} : gmap string nat) !! key = None ->
          em !! key = ({[ "a" := 1 ]} : gmap string nat) !! key)
    /\ (forall key value, ({[ "a" := 4 ]} : gmap string nat) !! key = Some value ->
          ({[ "a" := 1 ]} : gmap string nat) !! key = None ->
          em !! key = Some value).
Proof.
  apply (deep_merge_h_shares 2 example_heap 0 3 {[ "a" := 1 ]} {[ "a" := 4 ]}).
  - reflexivity.
  - reflexivity.
  - vm_compute. reflexivity.
Defined.

Lemma get_settings_failure_keeps_state_witness : fresh_process = fresh_process.
Proof.
  apply (get_settings_failure_keeps_state no_lax sample_load example_Path
           BaseSettings_init_params empty_environment
           (config_world "not yaml") None fresh_process Raised fresh_process
           [EvFindConfig; EvExists ["srv"; "app"; "mcp_agent.config.yaml"];
            EvOpen ["srv"; "app"; "mcp_agent.config.yaml"]; EvYamlLoad "not yaml"]).
  - vm_compute. reflexivity.
  - by right.
Defined.

Lemma get_settings_explicit_path_skips_locator_witness :
  EvFindConfig ∉ [EvExists ["/nonexistent/path.yaml"]; EvSettingsInit].
Proof.
  apply (get_settings_explicit_path_skips_locator no_lax example_load example_Path
           BaseSettings_init_params empty_environment
           secrets_only_world "/nonexistent/path.yaml" fresh_process
           (Ok (Instance_ 0 (default_instance Settings_model)))
           (PState (Some (Instance_ 0 (default_instance Settings_model))) 1)).
  - discriminate.
  - vm_compute. reflexivity.
Defined.

Lemma get_settings_config_only_witness :
  exists s st' tr,
    get_settings no_lax sample_load example_Path
      BaseSettings_init_params empty_environment (config_world "servers") None
      fresh_process = (Ok s, st', tr)
    /\ (EvDeepMerge ∉ tr)
    /\ (mcp ← getattr (obj_val s) "mcp";
        servers ← getattr mcp "servers";
        foo ← subscript servers "foo";
        getattr foo "command") = Some (VStr "npx")
    /\ getattr (obj_val s) "execution_engine" = Some (VStr "asyncio")
    /\ (getattr (obj_val s) "logger" ≫= fun logger => getattr logger "level")
       = Some (VStr "info").
Proof.
  destruct (get_settings_config_only no_lax sample_load example_Path
              BaseSettings_init_params empty_environment
              (config_world "servers") None fresh_process
              ["srv"; "app"; "mcp_agent.config.yaml"] "servers"
              (VDict example_servers) example_servers)
    as (st' & tr & _ & Hno & _ & _ & Hquiet).
  - reflexivity.
  - right. split; [by left|]. vm_compute. reflexivity.
  - vm_compute. reflexivity.
  - reflexivity.
  - vm_compute. reflexivity.
  - vm_compute. reflexivity.
  - destruct Hquiet as [_ Hexample].
    + apply (empty_sources_bind_nothing _ _ _ _ [∅; ∅; ∅]); [reflexivity|].
      repeat constructor.
    + destruct (Hexample eq_refl) as (s & Hs & Hcommand & Hengine & Hlevel).
      exists s, st', tr. split; [exact Hs|]. split; [exact Hno|].
      split; [exact Hcommand|]. split; [exact Hengine|exact Hlevel].
Defined.

Lemma get_settings_unreadable_config_witness :
  exists tr,
    get_settings no_lax sample_load example_Path
      BaseSettings_init_params empty_environment (config_world "not yaml") None
      fresh_process = (Raised, fresh_process, tr).
Proof.
  apply (get_settings_unreadable_config no_lax sample_load example_Path
           BaseSettings_init_params empty_environment
           (config_world "not yaml") None fresh_process
           ["srv"; "app"; "mcp_agent.config.yaml"]).
  - reflexivity.
  - right. split; [by left|]. vm_compute. reflexivity.
  - right. exists "not yaml". split; vm_compute; reflexivity.
Defined.

Lemma get_settings_malformed_secrets_witness :
  exists tr,
    get_settings no_lax sample_load example_Path
      BaseSettings_init_params empty_environment bad_secrets_world None
      fresh_process = (Raised, fresh_process, tr).
Proof.
  apply (get_settings_malformed_secrets no_lax sample_load example_Path
           BaseSettings_init_params empty_environment
           bad_secrets_world None fresh_process
           ["srv"; "app"; "mcp_agent.config.yaml"] "servers" (VDict example_servers)
           ["srv"; "app"; "mcp-agent.secrets.yaml"]).
  - reflexivity.
  - right. split; [by left|]. vm_compute. reflexivity.
  - vm_compute. reflexivity.
  - reflexivity.
  - vm_compute. reflexivity.
  - right. exists "not yaml". split; vm_compute; reflexivity.
Defined.

Lemma get_settings_config_not_a_mapping_witness :
  exists tr,
    get_settings no_lax sample_load example_Path
      BaseSettings_init_params empty_environment (config_world "list") None
      fresh_process = (Raised, fresh_process, tr).
Proof.
  apply (get_settings_config_not_a_mapping no_lax sample_load example_Path
           BaseSettings_init_params empty_environment
           (config_world "list") None fresh_process
           ["srv"; "app"; "mcp_agent.config.yaml"] "list" (VList [VInt 1])).
  - reflexivity.
  - right. split; [by left|]. vm_compute. reflexivity.
  - vm_compute. reflexivity.
  - reflexivity.
  - reflexivity.
  - reflexivity.
Defined.

Lemma construct_requires_fields_witness :
  failed (construct no_lax AzureSettings {[ "api_key" := VStr "k" ]}).
Proof.
  apply (construct_requires_fields no_lax "AzureSettings" ExtraAllow
           [required "api_key" str; required "endpoint" str]
           {[ "api_key" := VStr "k" ]} (required "endpoint" str)).
  - set_solver.
  - reflexivity.
  - vm_compute. reflexivity.
Defined.

Lemma construct_without_arguments_witness :
  exists cls extra fields,
    LoggerSettings = TModel cls extra fields
    /\ (Forall (fun f => is_Some (fdefault f)) fields ->
        construct no_lax LoggerSettings ∅ = Ok (default_instance LoggerSettings))
    /\ (Exists (fun f => fdefault f = None) fields ->
        construct no_lax LoggerSettings ∅ = ValidationError).
Proof.
  apply (construct_without_arguments no_lax LoggerSettings).
  unfold BaseModel_classes. set_solver.
Defined.


Lemma Settings_rejects_bad_root_uri_witness :
  failed (construct no_lax Settings_model (root_config "http://x"))
  /\ failed (Settings no_lax BaseSettings_init_params debug_environment
               (config_world "http-root") (root_config "http://x")).
Proof.
  apply (Settings_rejects_bad_root_uri no_lax BaseSettings_init_params
           debug_environment (config_world "http-root") (root_config "http://x")
           {[ "servers" := VDict {[ "foo" :=
                VDict {[ "roots" := VList [VDict {[ "uri" := VStr "http://x" ]}] ]} ]} ]}
           {[ "foo" := VDict {[ "roots" := VList [VDict {[ "uri" := VStr "http://x" ]}] ]} ]}
           "foo"
           {[ "roots" := VList [VDict {[ "uri" := VStr "http://x" ]}] ]}
           [VDict {[ "uri" := VStr "http://x" ]}] 0
           {[ "uri" := VStr "http://x" ]} "http://x");
    vm_compute; reflexivity.
Defined.

Lemma get_settings_rejects_bad_root_uri_witness :
  exists r tr,
    get_settings no_lax sample_load example_Path
      BaseSettings_init_params empty_environment (config_world "http-root") None
      fresh_process = (r, fresh_process, tr)
    /\ failed r.
Proof.
  apply (get_settings_rejects_bad_root_uri no_lax sample_load example_Path
           BaseSettings_init_params empty_environment
           (config_world "http-root") None fresh_process
           ["srv"; "app"; "mcp_agent.config.yaml"] "http-root"
           (VDict (root_config "http://x")) (root_config "http://x")
           {[ "servers" := VDict {[ "foo" :=
                VDict {[ "roots" := VList [VDict {[ "uri" := VStr "http://x" ]}] ]} ]} ]}
           {[ "foo" := VDict {[ "roots" := VList [VDict {[ "uri" := VStr "http://x" ]}] ]} ]}
           "foo"
           {[ "roots" := VList [VDict {[ "uri" := VStr "http://x" ]}] ]}
           [VDict {[ "uri" := VStr "http://x" ]}] 0
           {[ "uri" := VStr "http://x" ]} "http://x").
  - reflexivity.
  - right. split; [by left|]. vm_compute. reflexivity.
  - vm_compute. reflexivity.
  - reflexivity.
  - vm_compute. reflexivity.
  - vm_compute. reflexivity.
  - vm_compute. reflexivity.
  - vm_compute. reflexivity.
  - vm_compute. reflexivity.
  - vm_compute. reflexivity.
  - reflexivity.
  - vm_compute. reflexivity.
  - reflexivity.
Defined.

Lemma construct_literal_field_witness :
  exists s, VStr "temporal" = VStr s /\ s ∈ ["asyncio"; "temporal"].
Proof.
  apply (construct_literal_field no_lax "Settings" ExtraAllow Settings_fields
           {[ "execution_engine" := VStr "temporal" ]}
           (VObj "Settings"
              (<["execution_engine" := VStr "temporal"]> (default_attrs Settings_fields)))
           (defaulted "execution_engine" (TLiteral ["asyncio"; "temporal"]) (VStr "asyncio"))
           ["asyncio"; "temporal"] (VStr "temporal")).
  - vm_compute. reflexivity.
  - set_solver.
  - reflexivity.
  - vm_compute. reflexivity.
Defined.
